(** * keras_ocr.datasets: a shallow embedding and its checked properties

  The development follows [src/keras_ocr/datasets.py]:

  - [PyStr] and [OsPath]: the [str] methods and [os.path.join] that the
    module calls;
  - [Labels]: [_read_born_digital_labels_file], line by line;
  - [Fetch]: the two dataset functions, over an explicit log of the I/O
    they perform;
  - [Generator]: [get_recognizer_image_generator] as a machine that is
    stepped one loop iteration at a time, over a heap of list objects;
  - [Following], [Demo], [DemoGen]: the dataset an ordered list of image
    IDs stands for, and small inputs to run the code on;
  - [BornDigitalPaths], [CocoPaths], [GeneratorTrace]: names for the paths
    and URLs of the two dataset functions, and observations of a run of the
    generator (the notices printed, the samples of [k] iterations).

  Characters are code points below 256 ([ascii]); a Python [str] is a
  [list ascii]. *)

From Stdlib Require Import ZArith Ascii String.
From stdpp Require Import gmap strings list sorting pretty.

Local Open Scope Z_scope.
Local Open Scope nat_scope.

(** A Python [str]. *)
Abbreviation str := (list ascii).

(** String literals of the source are written [py "train"]. *)
Definition py (s : string) : str := list_ascii_of_string s.
Arguments py : simpl never.

(** ** Python's [str] methods *)
Module PyStr.

(** [str.isspace] on one character, for code points below 256. *)
Definition is_space (c : ascii) : bool :=
  bool_decide (nat_of_ascii c ∈ [9; 10; 11; 12; 13; 28; 29; 30; 31; 32; 133; 160]).

Fixpoint lstrip (s : str) : str :=
  match s with
  | [] => []
  | c :: s' => if is_space c then lstrip s' else s
  end.

Definition rstrip (s : str) : str := reverse (lstrip (reverse s)).

(** [s.strip()] *)
Definition strip (s : str) : str := rstrip (lstrip s).

(** [s.split(sep)] for a one-character separator. *)
Fixpoint split (sep : ascii) (s : str) : list str :=
  match s with
  | [] => [[]]
  | c :: s' =>
      if decide (c = sep) then [] :: split sep s'
      else match split sep s' with
           | f :: fs => (c :: f) :: fs
           | [] => [[c]]
           end
  end.

(** [sep.join(parts)] *)
Fixpoint join (sep : str) (parts : list str) : str :=
  match parts with
  | [] => []
  | [p] => p
  | p :: ps => p ++ sep ++ join sep ps
  end.

(** [s[1:-1]] *)
Definition slice_1_m1 (s : str) : str := take (length s - 2) (drop 1 s).

(** [c in alphabet], for a single character [c]. *)
Definition char_in (c : ascii) (alphabet : str) : bool :=
  bool_decide (c ∈ alphabet).

Fixpoint startswith (p s : str) : bool :=
  match p, s with
  | [], _ => true
  | a :: p', b :: s' => bool_decide (a = b) && startswith p' s'
  | _ :: _, [] => false
  end.

(** [a in b] for two strings: [a] occurs in [b] as a substring. *)
Fixpoint str_in (a b : str) : bool :=
  startswith a b ||
  match b with
  | [] => false
  | _ :: b' => str_in a b'
  end.

Definition endswith_char (c : ascii) (s : str) : bool :=
  bool_decide (last s = Some c).

End PyStr.

(** ** [os.path.join] (posixpath), two arguments *)
Module OsPath.

Definition sep : ascii := "/"%char.

Definition join (a b : str) : str :=
  if PyStr.startswith [sep] b then b
  else if bool_decide (a = []) || PyStr.endswith_char sep a then a ++ b
  else a ++ [sep] ++ b.

End OsPath.

(** ** The normalized tuple [(filepath, box, text)] *)
Definition entry (B : Type) : Type := str * option B * str.

(** ** [_read_born_digital_labels_file] *)
Module Labels.

Definition comma : ascii := ","%char.

(** One iteration of the two list comprehensions: from a line as
    [readlines] gives it to the tuple. [None] stands for the
    [IndexError] of [segments[0]] on an empty list. *)
Definition parse_line {B} (image_folder : str) (l : str) : option (entry B) :=
  let segments := PyStr.split comma (PyStr.strip l) in
  match segments !! 0 with
  | None => None
  | Some first =>
      Some (OsPath.join image_folder first,
            None,
            PyStr.slice_1_m1 (PyStr.strip (PyStr.join [comma] (drop 1 segments))))
  end.

Definition parse_lines {B} (image_folder : str) (lines : list str)
  : option (list (entry B)) :=
  mapM (parse_line image_folder) lines.

End Labels.

(** The double quote character and the line feed. *)
Definition dquote : ascii := "034"%char.
Definition LF : ascii := "010"%char.


(** ** [random.shuffle] and [numpy.random.randint]

    The two libraries keep separate global generators. Each is modelled here
    by a stream of raw draws [draw : nat -> nat] and a counter of the draws
    consumed so far. *)
Module PyRandom.

(** [x[i], x[j] = x[j], x[i]] *)
Definition swap {A} (x : list A) (i j : nat) : list A :=
  match x !! j, x !! i with
  | Some xj, Some xi => <[j:=xi]> (<[i:=xj]> x)
  | _, _ => x
  end.

(** The loop of [random.shuffle]:
    [for i in reversed(range(1, len(x))): j = randbelow(i + 1); swap].
    [i] counts down from its argument to 1; [randbelow n] is the next raw
    draw reduced modulo [n]. *)
Fixpoint shuffle_from {A} (draw : nat → nat) (k : nat) (i : nat) (x : list A)
  : list A * nat :=
  match i with
  | 0 => (x, k)
  | S i' =>
      let j := draw k `mod` (i + 1) in
      shuffle_from draw (S k) i' (swap x i j)
  end.

Definition shuffle {A} (draw : nat → nat) (k : nat) (x : list A) : list A * nat :=
  shuffle_from draw k (length x - 1) x.

(** [np.random.randint(low, high, size)]: [size] integers from [low]
    (inclusive) to [high] (exclusive). *)
Fixpoint randint (draw : nat → nat) (k : nat) (low high : Z) (size : nat)
  : list Z * nat :=
  match size with
  | 0 => ([], k)
  | S size' =>
      let v := (low + Z.of_nat (draw k) `mod` (high - low))%Z in
      let '(vs, k') := randint draw (S k) low high size' in
      (v :: vs, k')
  end.

(** [.astype('uint8')] *)
Definition astype_uint8 (vs : list Z) : list Z := (λ v, v `mod` 256)%Z <$> vs.

End PyRandom.

(** ** The dataset functions *)
Module Fetch.

Inductive exn :=
| AssertionError (msg : str)
| DownloadError (url : str)
| ZipError (path : str)
| FileError (path : str)
| KeyError (key : str)
| IndexError
| ValueError.

(** What the functions do to the outside world, in the order they do it. *)
Inductive io_event :=
| EvDownload (url cache_dir : str) (sha256 : option str)
| EvZipRead (zip member : str)
| EvExtractAll (zip dir : str)
| EvOpen (path : str).

(** The directories an event creates when they are absent. *)
Definition creates (e : io_event) : list str :=
  match e with
  | EvDownload _ cache_dir _ => [cache_dir]
  | EvExtractAll _ dir => [dir]
  | EvZipRead _ _ | EvOpen _ => []
  end.

Definition created_dirs (log : list io_event) : list str := log ≫= creates.

Definition res (A : Type) : Type := exn + A.
Definition IO (A : Type) : Type := list io_event → res A * list io_event.

Definition ret {A} (a : A) : IO A := λ log, (inr a, log).
Definition raise {A} (e : exn) : IO A := λ log, (inl e, log).
Definition bind {A B} (m : IO A) (k : A → IO B) : IO B :=
  λ log, match m log with
         | (inl e, log') => (inl e, log')
         | (inr a, log') => k a log'
         end.
Definition lift {A} (r : res A) : IO A := λ log, (r, log).
Definition emit (e : io_event) : IO unit := λ log, (inr (), log ++ [e]).
Definition or_raise {A} (e : exn) (o : option A) : res A :=
  match o with Some a => inr a | None => inl e end.

Notation "'let!' x := m 'in' k" := (bind m (λ x, k))
  (at level 10, x name, m at level 100, k at level 200).

(** The COCO-Text annotation index, as [json.loads] returns it. A JSON
    object is an association list in document order. *)
Record img_info := { img_set : str; file_name : str }.

Record ann_info (num : Type) := {
  language : str;
  legibility : str;
  mask : list num;
  utf8_string : str }.
Arguments language {num}.
Arguments legibility {num}.
Arguments mask {num}.
Arguments utf8_string {num}.

Record coco_labels (num : Type) := {
  imgs : list (str * img_info);
  imgToAnns : list (str * list Z);
  anns : list (str * ann_info num);
  (** what iterating the remaining top-level members ([cats], [info]) yields:
      their keys *)
  other_keys : list str }.
Arguments imgs {num}.
Arguments imgToAnns {num}.
Arguments anns {num}.
Arguments other_keys {num}.

(** What lies outside the module: the user's home, the network, the
    archives and the files. *)
Record env (num : Type) := {
  (** [os.path.expanduser(os.path.join('~', '.keras-ocr'))] *)
  default_cache_dir : str;
  (** the local path [tools.download_and_verify] returns for a URL and a
      cache directory, [None] when it raises *)
  fetched : str → str → option str;
  (** [json.loads] of the member [cocotext.v2.json] of an archive *)
  cocotext_json : str → option (coco_labels num);
  (** whether [extractall] of an archive to a directory succeeds *)
  extracts : str → str → bool;
  (** [readlines] of a text file *)
  file_lines : str → option (list str) }.
Arguments default_cache_dir {num}.
Arguments fetched {num}.
Arguments cocotext_json {num}.
Arguments extracts {num}.
Arguments file_lines {num}.

Section WithEnv.
Context {num : Type} (E : env num).

(** Modelled from the spec: [tools.download_and_verify] is not part of
    [datasets.py]. Per the spec it creates [cache_dir] when absent and either
    returns the local path of the verified file or fails. *)
Definition download_and_verify (url cache_dir : str) (sha256 : option str) : IO str :=
  let! _ := emit (EvDownload url cache_dir sha256) in
  lift (or_raise (DownloadError url) (fetched E url cache_dir)).

Definition zip_read_json (zip : str) : IO (coco_labels num) :=
  let! _ := emit (EvZipRead zip (py "cocotext.v2.json")) in
  lift (or_raise (ZipError zip) (cocotext_json E zip)).

Definition zip_extractall (zip dir : str) : IO unit :=
  let! _ := emit (EvExtractAll zip dir) in
  if extracts E zip dir then ret () else raise (ZipError zip).

Definition _read_born_digital_labels_file {B}
    (labels_filepath image_folder : str) : IO (list (entry B)) :=
  let! _ := emit (EvOpen labels_filepath) in
  let! lines := lift (or_raise (FileError labels_filepath) (file_lines E labels_filepath)) in
  lift (or_raise IndexError (Labels.parse_lines image_folder lines)).

(** [cache_dir] after [if cache_dir is None: cache_dir = ...] *)
Definition resolve_cache_dir (cache_dir : option str) : str :=
  match cache_dir with
  | None => default_cache_dir E
  | Some d => d
  end.


(** [d[k]] on a JSON object; [None] stands for [KeyError]. *)
Fixpoint dict_get {V} (k : str) (d : list (str * V)) : option V :=
  match d with
  | [] => None
  | (k', v) :: d' => if decide (k' = k) then Some v else dict_get k d'
  end.

(** [{k: v for k, v in d.items() if k in ks}] *)
Definition dict_restrict {V} (ks : list str) (d : list (str * V)) : list (str * V) :=
  filter (λ kv, kv.1 ∈ ks) d.

(** [l.index(x)]; [None] stands for [ValueError]. *)
Fixpoint list_index (x : str) (l : list str) : option nat :=
  match l with
  | [] => None
  | y :: l' => if decide (y = x) then Some 0 else S <$> list_index x l'
  end.

(** [l[:n]] *)
Definition slice_to {A} (l : list A) (n : Z) : list A :=
  if decide (0 ≤ n)%Z then take (Z.to_nat n) l
  else take (length l - Z.to_nat (- n)) l.

(** [if limit:] for [limit] an [int] or [None] *)
Definition truthy (limit : option Z) : bool :=
  match limit with
  | None => false
  | Some n => negb (bool_decide (n = 0%Z))
  end.

(** [str(annIdx)] *)
Definition str_of_int (z : Z) : str := list_ascii_of_string (pretty z).

(** [np.array(m).reshape(-1, 2)]; [None] stands for the [ValueError] on an
    odd number of coordinates. *)
Fixpoint reshape2 (m : list num) : option (list (num * num)) :=
  match m with
  | [] => Some []
  | [_] => None
  | x :: y :: m' => ((x, y) ::.) <$> reshape2 m'
  end.

Abbreviation polygon := (list (num * num)).

(** [[cocoid for cocoid, data in labels['imgs'].items() if data['set'] in split]] *)
Definition select_ids (labels : coco_labels num) (split : str) : list str :=
  (filter (λ kv, PyStr.str_in (img_set kv.2) split) (imgs labels)).*1.

(** The body of [if limit:], on the pair [(selected_ids, labels)]. *)
Definition apply_limit (limit : Z) (selected_ids : list str) (labels : coco_labels num)
  : list str * coco_labels num :=
  let selected_ids := slice_to selected_ids limit in
  let imgToAnns' := dict_restrict selected_ids (imgToAnns labels) in
  let imgs' := dict_restrict selected_ids (imgs labels) in
  (* the keys of every top-level member: iterating a dict yields its keys *)
  let anns_set :=
    imgs'.*1 ++ imgToAnns'.*1 ++ (anns labels).*1 ++ other_keys labels in
  (selected_ids,
   {| imgs := imgs';
      imgToAnns := imgToAnns';
      anns := dict_restrict anns_set (anns labels);
      other_keys := other_keys labels |}).

(** [f'http://images.cocodataset.org/train2014/{filename}'] *)
Definition image_url (filename : str) : str :=
  py "http://images.cocodataset.org/train2014/" ++ filename.

(** The thread pool. [order] is the order in which the futures complete, as
    positions in the submitted list. Every submitted download runs (leaving
    the [with] block waits for all of them); the first failure met in
    completion order is the one [future.result()] raises. *)
Fixpoint first_failure (images_dir : str) (filenames : list str) (order : list nat)
  : option exn :=
  match order with
  | [] => None
  | i :: order' =>
      match filenames !! i with
      | None => first_failure images_dir filenames order'
      | Some filename =>
          match fetched E (image_url filename) images_dir with
          | None => Some (DownloadError (image_url filename))
          | Some _ => first_failure images_dir filenames order'
          end
      end
  end.

Definition download_images (order : list nat) (images_dir : str)
    (selected_filenames : list str) : IO unit :=
  λ log,
    let events :=
      omap (λ i, (λ f, EvDownload (image_url f) images_dir None) <$> selected_filenames !! i)
           order in
    (match first_failure images_dir selected_filenames order with
     | Some e => inl e
     | None => inr ()
     end, log ++ events).

(** The loop [for annIdx in labels['imgToAnns'][selected_id]], threading
    [dataset]. *)
Fixpoint append_anns (labels : coco_labels num) (english_only legible_only : bool)
    (filepath : str) (annIdxs : list Z) (dataset : list (entry polygon))
  : res (list (entry polygon)) :=
  match annIdxs with
  | [] => inr dataset
  | annIdx :: rest =>
      match dict_get (str_of_int annIdx) (anns labels) with
      | None => inl (KeyError (str_of_int annIdx))
      | Some ann =>
          if english_only && negb (bool_decide (language ann = py "english"))
          then append_anns labels english_only legible_only filepath rest dataset
          else if legible_only && negb (bool_decide (legibility ann = py "legible"))
          then append_anns labels english_only legible_only filepath rest dataset
          else
            match reshape2 (mask ann) with
            | None => inl ValueError
            | Some box =>
                append_anns labels english_only legible_only filepath rest
                  (dataset ++ [(filepath, Some box, utf8_string ann)])
            end
      end
  end.

(** The loop [for selected_id in selected_ids]; [todo] is what is left of
    [selected_ids]. *)
Fixpoint append_images (labels : coco_labels num) (english_only legible_only : bool)
    (images_dir : str) (selected_ids selected_filenames : list str)
    (todo : list str) (dataset : list (entry polygon))
  : res (list (entry polygon)) :=
  match todo with
  | [] => inr dataset
  | selected_id :: rest =>
      match list_index selected_id selected_ids with
      | None => inl ValueError
      | Some i =>
          match selected_filenames !! i with
          | None => inl IndexError
          | Some filename =>
              let filepath := OsPath.join images_dir filename in
              match dict_get selected_id (imgToAnns labels) with
              | None => inl (KeyError selected_id)
              | Some annIdxs =>
                  match append_anns labels english_only legible_only filepath
                          annIdxs dataset with
                  | inl e => inl e
                  | inr dataset' =>
                      append_images labels english_only legible_only images_dir
                        selected_ids selected_filenames rest dataset'
                  end
              end
          end
      end
  end.

(** [[labels['imgs'][cocoid]['file_name'] for cocoid in selected_ids]] *)
Definition filenames_of (labels : coco_labels num) (selected_ids : list str)
  : res (list str) :=
  let missing := filter (λ cocoid, ¬ is_Some (dict_get cocoid (imgs labels))) selected_ids in
  or_raise (KeyError (default [] (head missing)))
    (mapM (λ cocoid, file_name <$> dict_get cocoid (imgs labels)) selected_ids).

Definition cocotext_splits : list str := [py "train"; py "val"; py "trainval"].

Definition get_cocotext_recognizer_dataset (order : list nat)
    (split : str) (cache_dir : option str) (limit : option Z)
    (legible_only english_only return_raw_labels : bool)
  : IO (list (entry polygon) * option (coco_labels num * str)) :=
  if negb (bool_decide (split ∈ cocotext_splits))
  then raise (AssertionError (py "Unsupported split: " ++ split))
  else
    let cache_dir := resolve_cache_dir cache_dir in
    let main_dir := OsPath.join cache_dir (py "coco-text") in
    let images_dir := OsPath.join main_dir (py "images") in
    let! labels_zip :=
      download_and_verify
        (py "https://github.com/bgshih/cocotext/releases/download/dl/cocotext.v2.zip")
        main_dir
        (Some (py "1444893ce7dbcd8419b2ec9be6beb0dba9cf8a43bf36cab4293d5ba6cecb7fb1")) in
    let! labels := zip_read_json labels_zip in
    let selected_ids := select_ids labels split in
    let '(selected_ids, labels) :=
      if truthy limit then apply_limit (default 0%Z limit) selected_ids labels
      else (selected_ids, labels) in
    let! selected_filenames := lift (filenames_of labels selected_ids) in
    let! _ := download_images order images_dir selected_filenames in
    let! dataset :=
      lift (append_images labels english_only legible_only images_dir
              selected_ids selected_filenames selected_ids []) in
    ret (dataset, if return_raw_labels then Some (labels, images_dir) else None).

Definition get_born_digital_recognizer_dataset {B}
    (split : str) (cache_dir : option str) : IO (list (entry B)) :=
  let data := [] in
  let cache_dir := resolve_cache_dir cache_dir in
  let main_dir := OsPath.join cache_dir (py "borndigital") in
  let! data :=
    if bool_decide (split ∈ [py "train"; py "traintest"]) then
      let train_dir := OsPath.join main_dir (py "train") in
      let! training_zip_path :=
        download_and_verify
          (py "https://storage.googleapis.com/keras-ocr/borndigital/Challenge1_Training_Task3_Images_GT.zip")
          main_dir
          (Some (py "8ede0639f5a8031d584afd98cee893d1c5275d7f17863afc2cba24b13c932b07")) in
      let! _ := zip_extractall training_zip_path train_dir in
      let! more :=
        _read_born_digital_labels_file (OsPath.join train_dir (py "gt.txt")) train_dir in
      ret (data ++ more)
    else ret data in
  let! data :=
    if bool_decide (split ∈ [py "test"; py "traintest"]) then
      let test_dir := OsPath.join main_dir (py "test") in
      let! test_zip_path :=
        download_and_verify
          (py "https://storage.googleapis.com/keras-ocr/borndigital/Challenge1_Test_Task3_Images.zip")
          main_dir
          (Some (py "8f781b0140fd0bac3750530f0924bce5db3341fd314a2fcbe9e0b6ca409a77f0")) in
      let! _ := zip_extractall test_zip_path test_dir in
      let! test_gt_path :=
        download_and_verify
          (py "https://storage.googleapis.com/keras-ocr/borndigital/Challenge1_Test_Task3_GT.txt")
          test_dir
          (Some (py "fce7f1228b7c4c26a59f13f562085148acf063d6690ce51afc395e0a1aabf8be")) in
      let! more := _read_born_digital_labels_file test_gt_path test_dir in
      ret (data ++ more)
    else ret data in
  ret data.

End WithEnv.
End Fetch.

(** ** [get_recognizer_image_generator]

    The generator is a machine: [step] runs the body up to the end of one
    iteration of the [for] loop, and [next] steps until an iteration yields.
    Lists are objects on a heap, so that the list the caller handed over and
    the copy the generator makes of it are distinct locations. *)
Module Generator.

Abbreviation loc := positive.

Inductive out_line (B : Type) :=
| NoticeIllegal (n total : nat)   (* the f-string about illegal characters *)
| PrintBox (box : B).             (* [print(box)] *)
Arguments NoticeIllegal {B}.
Arguments PrintBox {B}.

Record world (B : Type) := World {
  heap : gmap loc (list (entry B));
  py_drawn : nat;      (* draws consumed from [random] *)
  np_drawn : nat;      (* draws consumed from [np.random] *)
  stdout : list (out_line B) }.
Arguments World {B}.
Arguments heap {B}.
Arguments py_drawn {B}.
Arguments np_drawn {B}.
Arguments stdout {B}.

(** The collaborators of [tools] and the two random generators. [None] is a
    raised exception. *)
Record env (B image : Type) := {
  read : str → option image;
  warpBox : image → B → Z → Z → list Z → option image;
  read_and_fit : str → Z → Z → list Z → option image;
  py_draw : nat → nat;
  np_draw : nat → nat }.
Arguments read {B image}.
Arguments warpBox {B image}.
Arguments read_and_fit {B image}.
Arguments py_draw {B image}.
Arguments np_draw {B image}.

(** Where the generator is suspended. *)
Inductive gen :=
| Created (labels : loc)           (* not started: the argument is still the caller's list *)
| Looping (labels : loc) (n pos : nat)
    (* inside [for index in itertools.cycle(range(n))]; [labels] is the copy,
       [pos] is how far the current pass over the saved range has come *)
| Finished.

(** What one iteration of the loop ends in. *)
Inductive signal (image : Type) :=
| Yield (sample : image * str)
| Skip                             (* [continue] *)
| Stop                             (* the loop is over: [StopIteration] *)
| Raise.
Arguments Yield {image}.
Arguments Skip {image}.
Arguments Stop {image}.
Arguments Raise {image}.

(** [next(itertools.cycle(xs))] with [pos] elements of the current pass
    consumed: the elements are replayed from the start once exhausted, and an
    empty [xs] ends the iteration. *)
Definition cycle_next {A} (xs : list A) (pos : nat) : option (A * nat) :=
  match xs !! pos with
  | Some x => Some (x, S pos)
  | None => match xs with
            | [] => None
            | x :: _ => Some (x, 1)
            end
  end.

(** [''.join([c for c in text if c in alphabet])] *)
Definition filter_text (alphabet text : str) : str :=
  filter (λ c, PyStr.char_in c alphabet = true) text.

(** [sum(any(c not in alphabet for c in text) for _, _, text in labels)] *)
Definition n_with_illegal_characters {B} (alphabet : str) (labels : list (entry B)) : nat :=
  length (filter (λ e : entry B, existsb (λ c, negb (PyStr.char_in c alphabet)) e.2 = true)
            labels).

Section WithArgs.
Context {B image : Type} (E : env B image).
Context (height width : Z) (alphabet : str) (augmenter : option (image → image)).

(** The code before the loop: the notice, [labels = labels.copy()], and the
    length of the range the loop cycles over. The result is the location of
    the copy, that length and the new world. [None]: [labels] is not a list. *)
Definition start (labels : loc) (σ : world B) : option (loc * nat * world B) :=
  match heap σ !! labels with
  | None => None
  | Some l =>
      let n_ill := n_with_illegal_characters alphabet l in
      let out := if decide (0 < n_ill)
                 then stdout σ ++ [NoticeIllegal n_ill (length l)]
                 else stdout σ in
      let copy := fresh (dom (heap σ)) in
      Some (copy, length l,
            World (<[copy := l]> (heap σ)) (py_drawn σ) (np_drawn σ) out)
  end.

(** [if index == 0: random.shuffle(labels)] *)
Definition enter (labels : loc) (index : nat) (σ : world B) : world B :=
  if decide (index = 0) then
    match heap σ !! labels with
    | None => σ
    | Some l =>
        let '(l', k) := PyRandom.shuffle (py_draw E) (py_drawn σ) l in
        World (<[labels := l']> (heap σ)) k (np_drawn σ) (stdout σ)
    end
  else σ.

(** [np.random.randint(low=0, high=255, size=3).astype('uint8')] *)
Definition draw_cval (σ : world B) : list Z * world B :=
  let '(vs, k) := PyRandom.randint (np_draw E) (np_drawn σ) 0 255 3 in
  (PyRandom.astype_uint8 vs, World (heap σ) (py_drawn σ) k (stdout σ)).

(** The rest of the body, from [cval = ...] on, for the entry read. *)
Definition process (e : entry B) (σ : world B) : signal image * world B :=
  let '(filepath, box, text) := e in
  let '(cval, σ) := draw_cval σ in
  let '(image, σ) :=
    match box with
    | Some b =>
        (read E filepath ≫= λ im, warpBox E im b height width cval,
         World (heap σ) (py_drawn σ) (np_drawn σ) (stdout σ ++ [PrintBox b]))
    | None => (read_and_fit E filepath width height cval, σ)
    end in
  match image with
  | None => (Raise, σ)
  | Some image =>
      let text := filter_text alphabet text in
      if decide (text = []) then (Skip, σ)
      else
        let image := match augmenter with
                     | Some augment_image => augment_image image
                     | None => image
                     end in
        (Yield (image, text), σ)
  end.

(** [labels[index]] after [enter]: the entry an iteration visits. *)
Definition visited (labels : loc) (index : nat) (σ : world B) : option (entry B) :=
  heap (enter labels index σ) !! labels ≫= (.!! index).

(** One turn of the loop: the next index from the cycle, then the body. *)
Definition iteration (labels : loc) (n pos : nat) (σ : world B)
  : signal image * gen * world B :=
  match cycle_next (seq 0 n) pos with
  | None => (Stop, Finished, σ)
  | Some (index, pos') =>
      let σ1 := enter labels index σ in
      match heap σ1 !! labels ≫= (.!! index) with
      | None => (Raise, Finished, σ1)
      | Some e =>
          let '(sig, σ2) := process e σ1 in
          match sig with
          | Raise => (Raise, Finished, σ2)
          | _ => (sig, Looping labels n pos', σ2)
          end
      end
  end.

Definition step (g : gen) (σ : world B) : signal image * gen * world B :=
  match g with
  | Created labels =>
      match start labels σ with
      | None => (Raise, Finished, σ)
      | Some (copy, n, σ') => iteration copy n 0 σ'
      end
  | Looping labels n pos => iteration labels n pos σ
  | Finished => (Stop, Finished, σ)
  end.

(** What a consumer's [next(gen)] sees. *)
Inductive pulled :=
| Item (sample : image * str)
| StopIteration
| Exception
| Diverges.    (* more than [fuel] iterations in a row hit [continue] *)

Fixpoint next (fuel : nat) (g : gen) (σ : world B) : pulled * gen * world B :=
  let '(sig, g', σ') := step g σ in
  match sig with
  | Yield sample => (Item sample, g', σ')
  | Stop => (StopIteration, g', σ')
  | Raise => (Exception, g', σ')
  | Skip =>
      match fuel with
      | 0 => (Diverges, g', σ')
      | S fuel' => next fuel' g' σ'
      end
  end.

(** [k] iterations in a row, whatever they end in. *)
Fixpoint steps (k : nat) (g : gen) (σ : world B) : gen * world B :=
  match k with
  | 0 => (g, σ)
  | S k' => let '(_, g', σ') := step g σ in steps k' g' σ'
  end.

(** A consumer pulling once per element of [fuels]. *)
Fixpoint pulls (fuels : list nat) (g : gen) (σ : world B)
  : list pulled * gen * world B :=
  match fuels with
  | [] => ([], g, σ)
  | fuel :: fuels' =>
      let '(p, g', σ') := next fuel g σ in
      let '(ps, g'', σ'') := pulls fuels' g' σ' in
      (p :: ps, g'', σ'')
  end.

End WithArgs.
End Generator.

(** ** The dataset an ordered list of image IDs stands for

    A description of the result of the COCO-Text function that does not
    thread an accumulator: each image ID contributes, in turn, the entries of
    its annotations that pass the two filters. *)
Module Following.
Import Fetch.

Section WithLabels.
Context {num : Type} (labels : coco_labels num).
Context (english_only legible_only : bool) (images_dir : str).

Definition kept (ann : ann_info num) : bool :=
  negb (english_only && negb (bool_decide (language ann = py "english")))
  && negb (legible_only && negb (bool_decide (legibility ann = py "legible"))).

Definition entries_of_ann (filepath : str) (annIdx : Z)
  : list (entry (list (num * num))) :=
  match dict_get (str_of_int annIdx) (anns labels) with
  | Some ann =>
      if kept ann then
        match reshape2 (mask ann) with
        | Some box => [(filepath, Some box, utf8_string ann)]
        | None => []
        end
      else []
  | None => []
  end.

Definition entries_of_image (cocoid : str) : list (entry (list (num * num))) :=
  match dict_get cocoid (imgs labels), dict_get cocoid (imgToAnns labels) with
  | Some info, Some annIdxs =>
      annIdxs ≫= entries_of_ann (OsPath.join images_dir (file_name info))
  | _, _ => []
  end.

Definition dataset_following (ids : list str) : list (entry (list (num * num))) :=
  ids ≫= entries_of_image.

End WithLabels.

(** [images_dir], and the pair [(selected_ids, labels)] as it stands after
    the [if limit:] block, as functions of the arguments and of the index
    read. *)
Definition images_dir_of {num} (E : env num) (cache_dir : option str) : str :=
  OsPath.join (OsPath.join (resolve_cache_dir E cache_dir) (py "coco-text")) (py "images").

Definition limited {num} (limit : option Z) (split : str) (labels0 : coco_labels num)
  : list str * coco_labels num :=
  if truthy limit then apply_limit (default 0%Z limit) (select_ids labels0 split) labels0
  else (select_ids labels0 split, labels0).

(** The order on image IDs that a sort of strings uses, and the sort. *)
Definition str_le (a b : str) : Prop :=
  String.le (string_of_list_ascii a) (string_of_list_ascii b).

#[global] Instance str_le_dec : RelDecision str_le.
Proof. intros a b. unfold str_le. apply _. Defined.

Definition sort_ids (ids : list str) : list str := merge_sort str_le ids.

End Following.

(** ** A small COCO-Text index and a small dataset to run the code on *)
Module Demo.
Import Fetch.

Definition ann (lang leg text : string) : ann_info Z :=
  {| language := py lang; legibility := py leg;
     mask := [0; 0; 4; 0; 4; 2; 0; 2]%Z; utf8_string := py text |}.

(** Three images, listed with ID 2 before ID 1. Image 2 has two annotations,
    one of them legible; image 1 has one, not legible. *)
Definition labels : coco_labels Z :=
  {| imgs := [(py "2", {| img_set := py "train"; file_name := py "b.jpg" |});
              (py "1", {| img_set := py "train"; file_name := py "a.jpg" |});
              (py "3", {| img_set := py "val"; file_name := py "c.jpg" |})];
     imgToAnns := [(py "2", [20; 21]%Z); (py "1", [10]%Z); (py "3", [30]%Z)];
     anns := [(py "10", ann "english" "illegible" "one");
              (py "20", ann "english" "legible" "two");
              (py "21", ann "french" "illegible" "deux");
              (py "30", ann "english" "legible" "three")];
     other_keys := [] |}.

(** Every download succeeds and lands in its cache directory; every archive
    holds [labels]. *)
Definition world : env Z :=
  {| default_cache_dir := py "/home/u/.keras-ocr";
     fetched := λ url cache_dir, Some (OsPath.join cache_dir (py "file"));
     cocotext_json := λ _, Some labels;
     extracts := λ _ _, true;
     file_lines := λ _, Some [] |}.

End Demo.

(** ** What holds of a generator made over the caller's list

    [r] is the location of the list handed to the generator and [l] its
    content. Once the loop runs, the generator works on a list of its own, at
    another location, holding the entries of [l] in some order. *)
Definition generator_inv {B} (r : Generator.loc) (l : list (entry B))
    (g : Generator.gen) (σ : Generator.world B) : Prop :=
  Generator.heap σ !! r = Some l
  ∧ match g with
    | Generator.Created r' => r' = r
    | Generator.Looping c n pos =>
        c ≠ r ∧ n = length l ∧ pos ≤ n
        ∧ ∃ l', Generator.heap σ !! c = Some l' ∧ l' ≡ₚ l
    | Generator.Finished => True
    end.

(** ** A small dataset to run the generator on *)
Module DemoGen.
Import Generator.

(** An image is stood for by the path it was read from and the fill colour. *)
Definition tools : env unit (str * list Z) :=
  {| read := λ path, Some (path, []);
     warpBox := λ im _ _ _ cval, Some (im.1, cval);
     read_and_fit := λ path _ _ cval, Some (path, cval);
     py_draw := λ k, 7 * k + 3;
     np_draw := λ k, 254 + 31 * k |}.

Definition dataset : list (entry unit) :=
  [(py "x.png", None, py "abcxyz");
   (py "y.png", None, py "xyz");
   (py "z.png", None, py "cab!")].

Definition caller : loc := 1%positive.

Definition store : world unit :=
  World {[caller := dataset]} 0 0 [].

(** The same caller with an empty list. *)
Definition empty_store : world unit :=
  World {[caller := []]} 0 0 [].

Definition alphabet : str := py "abc".

End DemoGen.

(** ** The directories and URLs of the Born-Digital function, by name *)
Module BornDigitalPaths.
Import Fetch.

Definition train_url : str :=
  py "https://storage.googleapis.com/keras-ocr/borndigital/Challenge1_Training_Task3_Images_GT.zip".
Definition train_sha256 : str :=
  py "8ede0639f5a8031d584afd98cee893d1c5275d7f17863afc2cba24b13c932b07".
Definition test_url : str :=
  py "https://storage.googleapis.com/keras-ocr/borndigital/Challenge1_Test_Task3_Images.zip".
Definition test_sha256 : str :=
  py "8f781b0140fd0bac3750530f0924bce5db3341fd314a2fcbe9e0b6ca409a77f0".
Definition test_gt_url : str :=
  py "https://storage.googleapis.com/keras-ocr/borndigital/Challenge1_Test_Task3_GT.txt".
Definition test_gt_sha256 : str :=
  py "fce7f1228b7c4c26a59f13f562085148acf063d6690ce51afc395e0a1aabf8be".

Definition main_dir {num} (E : env num) (cache_dir : option str) : str :=
  OsPath.join (resolve_cache_dir E cache_dir) (py "borndigital").
Definition train_dir {num} (E : env num) (cache_dir : option str) : str :=
  OsPath.join (main_dir E cache_dir) (py "train").
Definition test_dir {num} (E : env num) (cache_dir : option str) : str :=
  OsPath.join (main_dir E cache_dir) (py "test").

End BornDigitalPaths.

(** A label file of two records and a blank line, in an environment where
    every download and extraction succeeds. *)
Module DemoLabels.
Import Fetch.

Definition gt_lines : list str :=
  [py "word_1.png, " ++ [dquote] ++ py "Tiredness" ++ [dquote; LF];
   py "word_2.png, " ++ [dquote] ++ py "kills, a lot" ++ [dquote; LF];
   [LF]].

Definition world : env Z :=
  {| default_cache_dir := py "/home/u/.keras-ocr";
     fetched := λ url cache_dir, Some (OsPath.join cache_dir (py "file"));
     cocotext_json := λ _, None;
     extracts := λ _ _, true;
     file_lines := λ _, Some gt_lines |}.

End DemoLabels.

(** ** What a computation may do to the log

    [emits_only P m]: whatever the log and whatever the outcome, [m] leaves
    the log as it was and adds events that satisfy [P]. *)
Definition emits_only {A} (P : Fetch.io_event → Prop) (m : Fetch.IO A) : Prop :=
  ∀ log, ∃ events, (m log).2 = log ++ events ∧ Forall P events.

(** An event that creates directories creates them under [root]. *)
Definition creates_under (root : str) (e : Fetch.io_event) : Prop :=
  Forall (λ d, root `prefix_of` d) (Fetch.creates e).

(** ** The URL and the directory of the COCO-Text annotations, by name *)
Module CocoPaths.
Import Fetch.

Definition annotations_url : str :=
  py "https://github.com/bgshih/cocotext/releases/download/dl/cocotext.v2.zip".
Definition annotations_sha256 : str :=
  py "1444893ce7dbcd8419b2ec9be6beb0dba9cf8a43bf36cab4293d5ba6cecb7fb1".

Definition main_dir {num} (E : env num) (cache_dir : option str) : str :=
  OsPath.join (resolve_cache_dir E cache_dir) (py "coco-text").

(** The image downloads of a run, in completion order. *)
Definition image_events (images_dir : str) (filenames : list str) (order : list nat)
  : list io_event :=
  omap (λ i, (λ f, EvDownload (image_url f) images_dir None) <$> filenames !! i) order.


End CocoPaths.

(** The demonstration index behind a network on which the image [a.jpg]
    cannot be fetched. *)
Definition broken_world : Fetch.env Z :=
  {| Fetch.default_cache_dir := Fetch.default_cache_dir Demo.world;
     Fetch.fetched := λ url cache_dir,
       if decide (url = Fetch.image_url (py "a.jpg")) then None
       else Fetch.fetched Demo.world url cache_dir;
     Fetch.cocotext_json := Fetch.cocotext_json Demo.world;
     Fetch.extracts := Fetch.extracts Demo.world;
     Fetch.file_lines := Fetch.file_lines Demo.world |}.

(** ** Observing the generator: the notice, and the samples of a run *)
Module GeneratorTrace.
Import Generator.

Definition is_notice {B} (o : out_line B) : Prop :=
  match o with
  | NoticeIllegal _ _ => True
  | PrintBox _ => False
  end.

#[global] Instance is_notice_dec {B} (o : out_line B) : Decision (is_notice o).
Proof. destruct o; simpl; apply _. Defined.

(** The notices printed so far. *)
Definition notices {B} (σ : world B) : list (out_line B) :=
  filter is_notice (stdout σ).

(** The texts the generator can emit for a list of entries: the filtered
    texts that are not empty, in the order of the entries. *)
Definition usable_texts {B} (alphabet : str) (l : list (entry B)) : list str :=
  filter (λ t, t ≠ []) ((λ e : entry B, filter_text alphabet e.2) <$> l).

Section WithArgs.
Context {B image : Type} (E : env B image).
Context (height width : Z) (alphabet : str) (augmenter : option (image → image)).

(** [k] iterations in a row, with the samples they yield. *)
Fixpoint emitted (k : nat) (g : gen) (σ : world B)
  : list (image * str) * gen * world B :=
  match k with
  | 0 => ([], g, σ)
  | S k' =>
      let '(sig, g', σ') := step E height width alphabet augmenter g σ in
      let '(samples, g'', σ'') := emitted k' g' σ' in
      (match sig with
       | Yield sample => sample :: samples
       | _ => samples
       end, g'', σ'')
  end.

End WithArgs.
End GeneratorTrace.

(** A caller whose only entry has no character of the alphabet [abc]. *)
Definition unusable_store : Generator.world unit :=
  Generator.World {[DemoGen.caller := [(py "y.png", None, py "xyz")]]} 0 0 [].

(** * Properties *)

(** ** The label parser *)
Section ParserProperties.
Import PyStr.

Lemma split_cons sep s : ∃ f fs, split sep s = f :: fs.
Proof.
  induction s as [|c s [f [fs IH]]]; simpl; [by eauto|].
  case_decide; [by eauto|]. rewrite IH. eauto.
Qed.

Lemma join_cons_cons sep p q ps :
  join sep (p :: q :: ps) = p ++ sep ++ join sep (q :: ps).
Proof. reflexivity. Qed.

(** Splitting at a character and joining with it again gives the string
    back. *)
Lemma join_split sep s : join [sep] (split sep s) = s.
Proof.
  induction s as [|c s IH]; [done|]. simpl split.
  destruct (split_cons sep s) as (f & fs & Hs). rewrite Hs in IH |- *.
  case_decide as Hc.
  - subst c. by rewrite join_cons_cons, IH.
  - destruct fs as [|g fs].
    + simpl in *. by rewrite IH.
    + rewrite join_cons_cons in IH |- *. by rewrite <-IH.
Qed.

Lemma split_head_no_sep sep s f fs : split sep s = f :: fs → sep ∉ f.
Proof.
  revert f fs. induction s as [|c s IH]; intros f fs; simpl.
  - intros [= <- <-]. apply not_elem_of_nil.
  - case_decide as Hc.
    + intros [= <- <-]. apply not_elem_of_nil.
    + destruct (split_cons sep s) as (g & gs & Hs). rewrite Hs.
      intros [= <- <-]. rewrite elem_of_cons. intros [->|Hin]; [done|].
      by apply (IH g gs).
Qed.

(** [s[1:-1]] drops exactly the first and the last character. *)
Lemma slice_1_m1_wrapped a b t : slice_1_m1 ([a] ++ t ++ [b]) = t.
Proof.
  unfold slice_1_m1. simpl. rewrite drop_0, length_app. simpl.
  replace (length t + 1 - 1) with (length t) by lia.
  by rewrite take_app_length.
Qed.

Lemma parse_line_total {B} image_folder l :
  is_Some (Labels.parse_line (B:=B) image_folder l).
Proof.
  unfold Labels.parse_line.
  destruct (split_cons Labels.comma (strip l)) as (f & fs & ->). by eexists.
Qed.

Lemma parse_lines_total {B} image_folder lines :
  ∃ es, Labels.parse_lines (B:=B) image_folder lines = Some es
        ∧ Forall2 (λ l e, Labels.parse_line image_folder l = Some e) lines es.
Proof.
  unfold Labels.parse_lines.
  destruct (mapM (Labels.parse_line image_folder) lines) as [es|] eqn:Hm.
  - exists es. split; [done|]. by apply mapM_Some_1.
  - apply mapM_None in Hm. apply Exists_exists in Hm as (l & _ & Hl).
    destruct (parse_line_total (B:=B) image_folder l) as [e He]. congruence.
Qed.

End ParserProperties.

(** C5. For every line of the labels file, the parser splits the
    whitespace-stripped line at its first comma: the part before it, which
    holds no comma, is joined to the image folder with [os.path.join]; the
    remaining fields, rejoined with commas and stripped, lose their first and
    last character, so a label in double quotes loses exactly its quotes; the
    region is [None]. A file gives one such tuple per line. The line
    [img1.jpg,"hello, world"] under [/data] gives
    [("/data/img1.jpg", None, "hello, world")]. *)
Theorem born_digital_line_parsed (B : Type) (image_root : str) :
  (∀ line : str, ∃ first rest,
      PyStr.split Labels.comma (PyStr.strip line) = first :: rest
      ∧ (Labels.comma ∉ first)
      ∧ PyStr.join [Labels.comma] (first :: rest) = PyStr.strip line
      ∧ Labels.parse_line (B:=B) image_root line
        = Some (OsPath.join image_root first, None,
                PyStr.slice_1_m1 (PyStr.strip (PyStr.join [Labels.comma] rest))))
  ∧ (∀ t : str, PyStr.slice_1_m1 ([dquote] ++ t ++ [dquote]) = t)
  ∧ (∀ lines : list str, ∃ es,
      Labels.parse_lines (B:=B) image_root lines = Some es
      ∧ Forall2 (λ l e, Labels.parse_line image_root l = Some e) lines es)
  ∧ Labels.parse_line (B:=B) (py "/data")
      (py "img1.jpg," ++ [dquote] ++ py "hello, world" ++ [dquote; LF])
    = Some (py "/data/img1.jpg", None, py "hello, world").
Proof.
  split; [|split; [|split]].
  - intros line.
    destruct (split_cons Labels.comma (PyStr.strip line)) as (f & fs & Hs).
    exists f, fs. split; [done|]. split; [by eapply split_head_no_sep|].
    split; [by rewrite <-Hs, join_split|].
    unfold Labels.parse_line. rewrite Hs. simpl. by rewrite drop_0.
  - intros t. apply slice_1_m1_wrapped.
  - intros lines. apply parse_lines_total.
  - vm_compute. reflexivity.
Qed.

(** ** The dataset functions *)
Section FetchProperties.
Import Fetch Following.
Context {num : Type} (E : env num).

Lemma bind_inr {A C} (m : IO A) (k : A → IO C) log c log' :
  bind m k log = (inr c, log') →
  ∃ a log1, m log = (inr a, log1) ∧ k a log1 = (inr c, log').
Proof.
  unfold bind. destruct (m log) as [[e|a] log1]; [done|]. eauto.
Qed.

Lemma lift_inr {A} (r : res A) log a log' :
  lift r log = (inr a, log') → r = inr a ∧ log' = log.
Proof. unfold lift. by intros [= -> ->]. Qed.

Lemma or_raise_inr {A} e (o : option A) a : or_raise e o = inr a → o = Some a.
Proof. destruct o; simpl; congruence. Qed.

Lemma download_and_verify_inr url cache_dir sha log p log' :
  download_and_verify E url cache_dir sha log = (inr p, log') →
  fetched E url cache_dir = Some p ∧ log' = log ++ [EvDownload url cache_dir sha].
Proof.
  unfold download_and_verify, bind, emit, lift.
  intros [= H <-]. by apply or_raise_inr in H.
Qed.

Lemma zip_read_json_inr zip log labels log' :
  zip_read_json E zip log = (inr labels, log') → cocotext_json E zip = Some labels.
Proof.
  unfold zip_read_json, bind, emit, lift. intros [= H _]. by apply or_raise_inr in H.
Qed.

(** An unsupported split stops the COCO-Text function at its assertion, with
    the log as it was. *)
Lemma cocotext_unsupported_split order split cache_dir limit leg eng raw log :
  split ∉ cocotext_splits →
  get_cocotext_recognizer_dataset E order split cache_dir limit leg eng raw log
  = (inl (AssertionError (py "Unsupported split: " ++ split)), log).
Proof.
  intros Hs. unfold get_cocotext_recognizer_dataset.
  by rewrite bool_decide_eq_false_2.
Qed.

(** The Born-Digital function has no such check: a split that is neither of
    its three runs neither branch. *)
Lemma born_digital_other_split {B} split cache_dir log :
  split ∉ [py "train"; py "traintest"] →
  split ∉ [py "test"; py "traintest"] →
  get_born_digital_recognizer_dataset (B:=B) E split cache_dir log = (inr [], log).
Proof.
  intros H1 H2. unfold get_born_digital_recognizer_dataset.
  by rewrite !bool_decide_eq_false_2.
Qed.

(** What a successful run of the COCO-Text function went through. *)
Lemma cocotext_inr order split cache_dir limit leg eng raw log ds r log' :
  get_cocotext_recognizer_dataset E order split cache_dir limit leg eng raw log
  = (inr (ds, r), log') →
  ∃ zip labels0 fns,
    split ∈ cocotext_splits
    ∧ cocotext_json E zip = Some labels0
    ∧ filenames_of (limited limit split labels0).2 (limited limit split labels0).1 = inr fns
    ∧ first_failure E (images_dir_of E cache_dir) fns order = None
    ∧ append_images (limited limit split labels0).2 eng leg (images_dir_of E cache_dir)
        (limited limit split labels0).1 fns (limited limit split labels0).1 [] = inr ds
    ∧ r = (if raw then Some ((limited limit split labels0).2, images_dir_of E cache_dir)
           else None).
Proof.
  unfold get_cocotext_recognizer_dataset. case_bool_decide as Hs; [|done]. simpl.
  intros (zip & log1 & Hz & H)%bind_inr.
  apply download_and_verify_inr in Hz as [_ ->].
  apply bind_inr in H as (labels0 & log2 & Hl & H).
  apply zip_read_json_inr in Hl.
  exists zip, labels0. fold (limited limit split labels0) in H.
  destruct (limited limit split labels0) as [ids labels] eqn:Hlim. simpl.
  apply bind_inr in H as (fns & log3 & Hf & H). apply lift_inr in Hf as [Hf ->].
  apply bind_inr in H as ([] & log4 & Hd & H).
  apply bind_inr in H as (ds' & log5 & Ha & H). apply lift_inr in Ha as [Ha ->].
  unfold ret in H. injection H as <- <- <-.
  exists fns. repeat split; try done.
  unfold download_images in Hd.
  fold (images_dir_of E cache_dir) in Hd.
  by destruct (first_failure _ _ _ _).
Qed.

Lemma list_index_lookup x l i : list_index x l = Some i → l !! i = Some x.
Proof.
  revert i. induction l as [|y l IH]; intros i; simpl; [done|].
  case_decide as Hy; [by intros [= <-]; subst|].
  destruct (list_index x l) as [j|]; simpl; [|done].
  intros [= <-]. by apply IH.
Qed.

Lemma filenames_of_lookup (labels : coco_labels num) ids fns i cocoid filename :
  filenames_of labels ids = inr fns →
  ids !! i = Some cocoid → fns !! i = Some filename →
  ∃ info, dict_get cocoid (imgs labels) = Some info ∧ file_name info = filename.
Proof.
  intros Hf%or_raise_inr Hi Hn. apply mapM_Some_1 in Hf.
  destruct (Forall2_lookup_l _ _ _ _ _ Hf Hi) as (fn & Hn' & Hfn).
  rewrite Hn in Hn'. injection Hn' as <-.
  destruct (dict_get cocoid (imgs labels)) as [info|]; simplify_eq/=. eauto.
Qed.

Lemma filenames_of_length (labels : coco_labels num) ids fns :
  filenames_of labels ids = inr fns → length fns = length ids.
Proof.
  intros Hf%or_raise_inr. apply mapM_Some_1 in Hf. symmetry.
  by eapply Forall2_length.
Qed.

(** The inner loop appends, for each annotation in turn, what
    [entries_of_ann] describes. *)
Lemma append_anns_following (labels : coco_labels num) eng leg filepath annIdxs ds ds' :
  append_anns labels eng leg filepath annIdxs ds = inr ds' →
  ds' = ds ++ (annIdxs ≫= entries_of_ann labels eng leg filepath).
Proof.
  revert ds. induction annIdxs as [|a rest IH]; intros ds; simpl.
  - intros [= <-]. by rewrite app_nil_r.
  - unfold entries_of_ann at 1, kept.
    destruct (dict_get (str_of_int a) (anns labels)) as [ann|]; [|done].
    destruct (eng && negb (bool_decide (language ann = py "english"))); simpl.
    { apply IH. }
    destruct (leg && negb (bool_decide (legibility ann = py "legible"))); simpl.
    { apply IH. }
    destruct (reshape2 (mask ann)) as [box|]; [|done].
    intros ->%IH. by rewrite <-app_assoc.
Qed.

Lemma append_images_following (labels : coco_labels num) eng leg images_dir
    ids fns todo ds ds' :
  filenames_of labels ids = inr fns →
  append_images labels eng leg images_dir ids fns todo ds = inr ds' →
  ds' = ds ++ dataset_following labels eng leg images_dir todo.
Proof.
  intros Hf. revert ds. induction todo as [|cocoid rest IH]; intros ds; simpl.
  - intros [= <-]. by rewrite app_nil_r.
  - destruct (list_index cocoid ids) as [i|] eqn:Hi; [|done].
    destruct (fns !! i) as [filename|] eqn:Hn; [|done].
    destruct (filenames_of_lookup _ _ _ _ _ _ Hf (list_index_lookup _ _ _ Hi) Hn)
      as (info & Hinfo & <-).
    unfold dataset_following. simpl. unfold entries_of_image at 1. rewrite Hinfo.
    destruct (dict_get cocoid (imgToAnns labels)) as [annIdxs|]; [|done].
    destruct (append_anns _ _ _ _ _ _) as [e|ds1] eqn:Ha; [done|].
    apply append_anns_following in Ha as ->.
    intros ->%IH. by rewrite <-app_assoc.
Qed.

(** Whether some download fails does not depend on the order of completion. *)
Lemma first_failure_None images_dir fns order :
  first_failure E images_dir fns order = None ↔
  Forall (λ i, ∀ f, fns !! i = Some f → is_Some (fetched E (image_url f) images_dir)) order.
Proof.
  induction order as [|i order IH]; simpl; [by split|].
  rewrite Forall_cons, <-IH. destruct (fns !! i) as [f|] eqn:Hf.
  - destruct (fetched E (image_url f) images_dir) as [p|] eqn:Hp.
    + split; [|by intros [_ ?]]. intros ?. split; [|done].
      intros ? [= <-]. by rewrite Hp.
    + split; [done|]. intros [H _]. destruct (H f eq_refl) as [? ?]. congruence.
  - split; [|by intros [_ ?]]. intros ?. split; [|done]. by intros ? [=].
Qed.

Lemma first_failure_perm images_dir fns order1 order2 :
  order1 ≡ₚ order2 →
  first_failure E images_dir fns order1 = None →
  first_failure E images_dir fns order2 = None.
Proof. rewrite !first_failure_None. by intros ->. Qed.

End FetchProperties.

(** C1. The claim holds for the COCO-Text function
    ([cocotext_unsupported_split]) and fails for the Born-Digital one, which
    never checks its split: with the split [val] it performs no I/O and
    creates no directory, but it raises nothing and returns the empty
    dataset. *)
Theorem born_digital_val_split_returns_empty {num B : Type} (E : Fetch.env num)
    (cache_dir : option str) (log : list Fetch.io_event) :
  Fetch.get_born_digital_recognizer_dataset (B:=B) E (py "val") cache_dir log
  = (inr [], log)
  ∧ Fetch.created_dirs
      (Fetch.get_born_digital_recognizer_dataset (B:=B) E (py "val") cache_dir log).2
    = Fetch.created_dirs log.
Proof.
  assert (Fetch.get_born_digital_recognizer_dataset (B:=B) E (py "val") cache_dir log
          = (inr [], log)) as Hrun.
  { apply born_digital_other_split;
      rewrite !elem_of_cons, elem_of_nil; intros [H|[H|[]]];
      vm_compute in H; discriminate H. }
  split; [exact Hrun|]. by rewrite Hrun.
Qed.

(** C10. With [limit=0] the COCO-Text function does what it does with
    [limit=None]: the [if limit:] block is not entered, so the whole list of
    selected image IDs and the index as read are used. *)
Theorem cocotext_limit_zero_is_no_limit {num : Type} (E : Fetch.env num)
    (order : list nat) (split : str) (cache_dir : option str)
    (legible_only english_only return_raw_labels : bool) (log : list Fetch.io_event) :
  Fetch.get_cocotext_recognizer_dataset E order split cache_dir (Some 0%Z)
    legible_only english_only return_raw_labels log
  = Fetch.get_cocotext_recognizer_dataset E order split cache_dir None
      legible_only english_only return_raw_labels log
  ∧ ∀ labels0 : Fetch.coco_labels num,
      Following.limited (Some 0%Z) split labels0
      = (Fetch.select_ids labels0 split, labels0).
Proof. split; [reflexivity|]. intros labels0. reflexivity. Qed.

Section LimitProperties.
Import Fetch Following.
Context {num : Type}.
Implicit Types labels : coco_labels num.

Lemma dict_get_restrict {V} ks k (d : list (str * V)) v :
  dict_get k (dict_restrict ks d) = Some v → k ∈ ks ∧ dict_get k d = Some v.
Proof.
  unfold dict_restrict. induction d as [|[k' v'] d IH]; simpl; [done|].
  rewrite filter_cons. destruct (decide ((k', v').1 ∈ ks)) as [Hin|Hnin]; simpl in *.
  - destruct (decide (k' = k)) as [->|]; [|apply IH]. by intros [= ->].
  - intros [Hk Hd]%IH. split; [done|].
    destruct (decide (k' = k)) as [->|]; [done|exact Hd].
Qed.

Lemma limited_ids_positive (N : Z) split labels :
  (0 < N)%Z →
  (limited (Some N) split labels).1 = take (Z.to_nat N) (select_ids labels split).
Proof.
  intros HN. unfold limited, truthy.
  rewrite bool_decide_eq_false_2 by lia. simpl.
  unfold slice_to. by rewrite decide_True by lia.
Qed.

Lemma limited_imgs limit split labels k info :
  dict_get k (imgs (limited limit split labels).2) = Some info →
  dict_get k (imgs labels) = Some info.
Proof.
  unfold limited. destruct (truthy limit); [|done]. simpl.
  by intros [_ ?]%dict_get_restrict.
Qed.

(** The IDs used are IDs of the index, in the order the index lists them. *)
Lemma limited_ids_sublist limit split labels :
  (limited limit split labels).1 `sublist_of` (imgs labels).*1.
Proof.
  assert (select_ids labels split `sublist_of` (imgs labels).*1) as Hs.
  { unfold select_ids. apply fmap_sublist, sublist_filter. }
  unfold limited. destruct (truthy limit); [|done]. simpl.
  etrans; [|exact Hs]. unfold slice_to. case_decide; apply sublist_take.
Qed.

Lemma dataset_following_paths labels eng leg images_dir ids e :
  e ∈ dataset_following labels eng leg images_dir ids →
  ∃ cocoid info, cocoid ∈ ids ∧ dict_get cocoid (imgs labels) = Some info
                 ∧ e.1.1 = OsPath.join images_dir (file_name info).
Proof.
  unfold dataset_following. rewrite list_elem_of_bind.
  intros (cocoid & He & Hid). exists cocoid. unfold entries_of_image in He.
  destruct (dict_get cocoid (imgs labels)) as [info|]; [|by apply elem_of_nil in He].
  exists info. split; [done|]. split; [done|].
  destruct (dict_get cocoid (imgToAnns labels)) as [annIdxs|];
    [|by apply elem_of_nil in He].
  apply list_elem_of_bind in He as (a & He & _). unfold entries_of_ann in He.
  repeat case_match; try by apply elem_of_nil in He.
  by apply list_elem_of_singleton in He as ->.
Qed.

(** Entries drawn from the images of [ids] name at most [length ids] files. *)
Lemma distinct_paths_bound labels eng leg images_dir ids :
  length (remove_dups (dataset_following labels eng leg images_dir ids).*1.*1)
  ≤ length ids.
Proof.
  set (f := λ cocoid : str,
         match dict_get cocoid (imgs labels) with
         | Some info => OsPath.join images_dir (file_name info)
         | None => []
         end).
  rewrite <-(length_fmap f ids). apply submseteq_length, NoDup_submseteq.
  { apply NoDup_remove_dups. }
  intros p. rewrite elem_of_remove_dups.
  intros (ep & -> & (e & -> & He)%list_elem_of_fmap)%list_elem_of_fmap.
  apply dataset_following_paths in He as (cocoid & info & Hid & Hinfo & Hp).
  apply list_elem_of_fmap. exists cocoid. split; [|done]. unfold f. by rewrite Hinfo.
Qed.

End LimitProperties.

(** C6. With [limit=N], [N > 0], the list of selected image IDs is cut to
    its first [N] elements before any annotation is resolved, and the dataset
    returned is made of the annotations of those images only: every entry is
    the file of one of them, so the entries name at most [N] distinct files.
    The cap does not bound the number of entries: a limit of 2 can give one
    entry, and a limit of 1 can give two. *)
Theorem cocotext_limit_caps_images :
  (∀ (num : Type) (E : Fetch.env num) order split cache_dir (N : Z)
     legible_only english_only return_raw_labels log ds r log',
     (0 < N)%Z →
     Fetch.get_cocotext_recognizer_dataset E order split cache_dir (Some N)
       legible_only english_only return_raw_labels log = (inr (ds, r), log') →
     ∃ zip labels0,
       Fetch.cocotext_json E zip = Some labels0
       ∧ (Following.limited (Some N) split labels0).1
         = take (Z.to_nat N) (Fetch.select_ids labels0 split)
       ∧ ds = Following.dataset_following (Following.limited (Some N) split labels0).2
                english_only legible_only (Following.images_dir_of E cache_dir)
                (take (Z.to_nat N) (Fetch.select_ids labels0 split))
       ∧ (∀ e, e ∈ ds →
            ∃ cocoid info,
              cocoid ∈ take (Z.to_nat N) (Fetch.select_ids labels0 split)
              ∧ Fetch.dict_get cocoid (Fetch.imgs labels0) = Some info
              ∧ e.1.1 = OsPath.join (Following.images_dir_of E cache_dir)
                          (Fetch.file_name info))
       ∧ length (remove_dups ds.*1.*1) ≤ Z.to_nat N)
  ∧ (∃ ds r log',
       Fetch.get_cocotext_recognizer_dataset Demo.world [0; 1] (py "train") None
         (Some 2%Z) true false false [] = (inr (ds, r), log')
       ∧ length ds < 2)
  ∧ (∃ ds r log',
       Fetch.get_cocotext_recognizer_dataset Demo.world [0] (py "train") None
         (Some 1%Z) false false false [] = (inr (ds, r), log')
       ∧ 1 < length ds).
Proof.
  split; [|split].
  - intros num E order split cache_dir N leg eng raw log ds r log' HN Hrun.
    apply cocotext_inr in Hrun as (zip & labels0 & fns & _ & Hj & Hf & _ & Ha & _).
    eapply append_images_following in Ha; [|exact Hf]. simpl in Ha.
    rewrite limited_ids_positive in Ha by done.
    exists zip, labels0. split; [done|]. split; [by apply limited_ids_positive|].
    split; [done|]. split.
    + intros e He. rewrite Ha in He.
      apply dataset_following_paths in He as (cocoid & info & Hid & Hinfo & Hp).
      exists cocoid, info. split; [done|]. split; [|done].
      by eapply limited_imgs.
    + rewrite Ha. etrans; [apply distinct_paths_bound|].
      rewrite length_take. lia.
  - eexists _, _, _. split; [vm_compute; reflexivity|]. simpl. lia.
  - eexists _, _, _. split; [vm_compute; reflexivity|]. simpl. lia.
Qed.

(** At the demonstration index: a limit of 2 over the split [train], whose
    two images carry three annotations. *)
Lemma cocotext_limit_caps_images_witness :
  (0 < 2)%Z
  ∧ ∃ ds, (Fetch.get_cocotext_recognizer_dataset Demo.world [1; 0] (py "train") None
             (Some 2%Z) false false false []).1 = inr (ds, None)
          ∧ length ds = 3
          ∧ length (remove_dups ds.*1.*1) ≤ Z.to_nat 2.
Proof.
  split; [lia|].
  destruct (Fetch.get_cocotext_recognizer_dataset Demo.world [1; 0] (py "train") None
              (Some 2%Z) false false false []) as [[e|[ds r]] log'] eqn:Hrun;
    [vm_compute in Hrun; discriminate Hrun|].
  pose proof (proj1 cocotext_limit_caps_images Z Demo.world [1; 0] (py "train") None
                2%Z false false false [] ds r log') as Hcap.
  destruct (Hcap ltac:(lia) Hrun) as (zip & labels0 & _ & _ & _ & _ & Hlen).
  exists ds. vm_compute in Hrun. injection Hrun as <- <- <-.
  split; [reflexivity|]. split; [reflexivity|]. exact Hlen.
Defined.

Section CompletionOrder.
Import Fetch Following.
Context {num : Type} (E : env num).

(** Runs that differ only in the order of completion of the downloads, none
    of which fails, return the same value. *)
Lemma cocotext_result_perm order1 order2 split cache_dir limit leg eng raw log v log1 :
  order1 ≡ₚ order2 →
  get_cocotext_recognizer_dataset E order1 split cache_dir limit leg eng raw log
  = (inr v, log1) →
  ∃ log2,
    get_cocotext_recognizer_dataset E order2 split cache_dir limit leg eng raw log
    = (inr v, log2).
Proof.
  intros Hperm. unfold get_cocotext_recognizer_dataset.
  case_bool_decide; [|done]. cbn [negb].
  unfold bind, lift, ret, download_images.
  destruct (download_and_verify _ _ _ _ _) as [[e|zip] l1]; [done|].
  destruct (zip_read_json _ _ _) as [[e|labels0] l2]; [done|].
  destruct (if truthy limit then _ else _) as [ids labels].
  destruct (filenames_of labels ids) as [e|fns]; [done|].
  destruct (first_failure E _ fns order1) eqn:Hff; [done|].
  rewrite (first_failure_perm E _ _ _ _ Hperm Hff).
  destruct (append_images _ _ _ _ _ _ _ _); [done|].
  intros [= <- <-]. eauto.
Qed.

End CompletionOrder.

(** C7, amended. The dataset the COCO-Text function returns does not depend
    on the order in which the downloads complete, and it follows the list of
    selected image IDs as the annotation index lists them (filtered by split,
    cut by the limit): image after image, each with its annotations in turn.
    The IDs are not sorted. *)
Theorem cocotext_order_follows_index {num : Type} (E : Fetch.env num)
    (order1 order2 : list nat) (split : str) (cache_dir : option str)
    (limit : option Z) (legible_only english_only return_raw_labels : bool)
    (log log1 : list Fetch.io_event)
    (ds : list (entry (list (num * num)))) (r : option (Fetch.coco_labels num * str)) :
  order1 ≡ₚ order2 →
  Fetch.get_cocotext_recognizer_dataset E order1 split cache_dir limit
    legible_only english_only return_raw_labels log = (inr (ds, r), log1) →
  (∃ log2,
     Fetch.get_cocotext_recognizer_dataset E order2 split cache_dir limit
       legible_only english_only return_raw_labels log = (inr (ds, r), log2))
  ∧ ∃ zip labels0,
      Fetch.cocotext_json E zip = Some labels0
      ∧ ds = Following.dataset_following (Following.limited limit split labels0).2
               english_only legible_only (Following.images_dir_of E cache_dir)
               (Following.limited limit split labels0).1
      ∧ (Following.limited limit split labels0).1
          `sublist_of` (Fetch.imgs labels0).*1.
Proof.
  intros Hperm Hrun. split; [by eapply cocotext_result_perm|].
  apply cocotext_inr in Hrun as (zip & labels0 & fns & _ & Hj & Hf & _ & Ha & _).
  eapply append_images_following in Ha; [|exact Hf].
  exists zip, labels0. split; [done|]. split; [done|]. apply limited_ids_sublist.
Qed.

(** At the demonstration index, with the two downloads completing in either
    order. *)
Lemma cocotext_order_follows_index_witness :
  [0; 1] ≡ₚ [1; 0]
  ∧ ∃ ds log2,
      Fetch.get_cocotext_recognizer_dataset Demo.world [1; 0] (py "train") None None
        false false false [] = (inr (ds, None), log2)
      ∧ ds.*1.*1 = [py "/home/u/.keras-ocr/coco-text/images/b.jpg";
                    py "/home/u/.keras-ocr/coco-text/images/b.jpg";
                    py "/home/u/.keras-ocr/coco-text/images/a.jpg"].
Proof.
  split; [apply Permutation_swap|].
  destruct (Fetch.get_cocotext_recognizer_dataset Demo.world [0; 1] (py "train") None None
              false false false []) as [[e|[ds r]] log1] eqn:Hrun;
    [vm_compute in Hrun; discriminate Hrun|].
  destruct (cocotext_order_follows_index Demo.world [0; 1] [1; 0] (py "train") None None
              false false false [] log1 ds r (Permutation_swap _ _ _) Hrun)
    as [[log2 Hrun2] _].
  vm_compute in Hrun. injection Hrun as <- <- <-.
  eexists _, log2. split; [exact Hrun2|]. vm_compute. reflexivity.
Defined.

(** C7 as stated fails: the index of the demonstration lists image 2 before
    image 1, and the dataset comes out in that order, not in the order of the
    sorted IDs. *)
Lemma cocotext_order_not_sorted :
  ∃ ds log',
    Fetch.get_cocotext_recognizer_dataset Demo.world [0; 1] (py "train") None None
      false false false [] = (inr (ds, None), log')
    ∧ Following.sort_ids (Fetch.select_ids Demo.labels (py "train")) = [py "1"; py "2"]
    ∧ ds ≠ Following.dataset_following Demo.labels false false
             (Following.images_dir_of Demo.world None)
             (Following.sort_ids (Fetch.select_ids Demo.labels (py "train"))).
Proof.
  eexists _, _. split; [vm_compute; reflexivity|]. split; [vm_compute; reflexivity|].
  vm_compute. discriminate.
Qed.

(** ** The random library calls *)
Section RandomProperties.
Import PyRandom.
Context {A : Type}.
Implicit Types x : list A.

Lemma swap_length x i j : length (swap x i j) = length x.
Proof.
  unfold swap. destruct (x !! j), (x !! i); by rewrite ?length_insert.
Qed.

(** Reading the list after the exchange is reading it before, with the two
    positions traded. *)
Lemma swap_lookup x i j k :
  i < length x → j < length x →
  swap x i j !! k
  = x !! (if decide (k = j) then i else if decide (k = i) then j else k).
Proof.
  intros Hi Hj. unfold swap.
  destruct (lookup_lt_is_Some_2 x j Hj) as [xj Hxj].
  destruct (lookup_lt_is_Some_2 x i Hi) as [xi Hxi]. rewrite Hxj, Hxi.
  destruct (decide (k = j)) as [->|Hkj].
  - rewrite list_lookup_insert_eq by (by rewrite length_insert). done.
  - rewrite list_lookup_insert_ne by done.
    destruct (decide (k = i)) as [->|Hki].
    + by rewrite list_lookup_insert_eq.
    + by rewrite list_lookup_insert_ne.
Qed.

Lemma swap_perm x i j : swap x i j ≡ₚ x.
Proof.
  destruct (decide (i < length x)) as [Hi|Hi]; last first.
  { unfold swap. rewrite (lookup_ge_None_2 x i) by lia. by destruct (x !! j). }
  destruct (decide (j < length x)) as [Hj|Hj]; last first.
  { unfold swap. by rewrite (lookup_ge_None_2 x j) by lia. }
  apply Permutation_inj. split; [apply swap_length|].
  exists (λ k, if decide (k = j) then i else if decide (k = i) then j else k).
  split; [|intros k; by apply swap_lookup].
  intros a b. repeat case_decide; congruence.
Qed.

Lemma shuffle_from_perm draw k i x : (shuffle_from draw k i x).1 ≡ₚ x.
Proof.
  revert k x. induction i as [|i IH]; intros k x; simpl; [done|].
  rewrite IH. apply swap_perm.
Qed.

(** [random.shuffle] rearranges: nothing is lost, added or repeated. *)
Lemma shuffle_perm draw k x : (shuffle draw k x).1 ≡ₚ x.
Proof. apply shuffle_from_perm. Qed.

Lemma shuffle_length draw k x : length (shuffle draw k x).1 = length x.
Proof. by rewrite shuffle_perm. Qed.

End RandomProperties.

Lemma randint_range draw k low high size :
  (low < high)%Z →
  length (PyRandom.randint draw k low high size).1 = size
  ∧ Forall (λ v, low ≤ v < high)%Z (PyRandom.randint draw k low high size).1.
Proof.
  intros Hlh. revert k. induction size as [|size IH]; intros k; simpl; [done|].
  destruct (IH (S k)) as [Hlen Hall].
  destruct (PyRandom.randint draw (S k) low high size) as [vs k'] eqn:Hr. simpl in *.
  split; [by rewrite Hlen|]. constructor; [|done].
  pose proof (Z.mod_pos_bound (Z.of_nat (draw k)) (high - low)) as Hm.
  specialize (Hm ltac:(lia)). revert Hm.
  generalize (Z.of_nat (draw k) `mod` (high - low))%Z. intros m Hm. lia.
Qed.

(** C4. Each of the three components of the fill colour is drawn from 0
    (inclusive) to 255 (exclusive), as [np.random.randint(low=0, high=255)]
    does: it lies between 0 and 254, and 255 is never drawn. *)
Theorem cval_never_255 {B image : Type} (E : Generator.env B image)
    (σ : Generator.world B) :
  length (Generator.draw_cval E σ).1 = 3
  ∧ Forall (λ v, 0 ≤ v ≤ 254)%Z (Generator.draw_cval E σ).1
  ∧ 255%Z ∉ (Generator.draw_cval E σ).1.
Proof.
  unfold Generator.draw_cval.
  destruct (randint_range (Generator.np_draw E) (Generator.np_drawn σ) 0 255 3)
    as [Hlen Hall]; [lia|].
  destruct (PyRandom.randint _ _ _ _ _) as [vs k]. simpl in *.
  assert (Forall (λ v, 0 ≤ v ≤ 254)%Z (PyRandom.astype_uint8 vs)) as Hr.
  { unfold PyRandom.astype_uint8. apply Forall_fmap. eapply Forall_impl; [exact Hall|].
    intros v Hv. simpl in *. rewrite Z.mod_small; lia. }
  split; [by rewrite <-Hlen; apply length_fmap|]. split; [done|].
  intros Hin. rewrite Forall_forall in Hr. apply Hr in Hin. lia.
Qed.

(** ** The generator *)
Section GeneratorProperties.
Import Generator.
Context {B image : Type} (E : env B image).
Context (height width : Z) (alphabet : str) (augmenter : option (image → image)).

Implicit Types (σ : world B) (l : list (entry B)) (e : entry B) (g : gen) (r c : loc).

Local Abbreviation process := (process E height width alphabet augmenter).
Local Abbreviation iteration := (iteration E height width alphabet augmenter).
Local Abbreviation step := (step E height width alphabet augmenter).
Local Abbreviation next := (next E height width alphabet augmenter).
Local Abbreviation steps := (steps E height width alphabet augmenter).
Local Abbreviation pulls := (pulls E height width alphabet augmenter).

Lemma cycle_next_range n pos :
  pos < n → cycle_next (seq 0 n) pos = Some (pos, S pos).
Proof.
  intros Hp. unfold cycle_next. by rewrite lookup_seq_lt.
Qed.

(** At the end of a pass the cycle starts over, as it started. *)
Lemma cycle_next_wrap n : cycle_next (seq 0 n) n = cycle_next (seq 0 n) 0.
Proof.
  unfold cycle_next. rewrite (lookup_seq_ge 0 n n) by lia.
  by destruct n.
Qed.

Lemma cycle_next_index n pos index pos' :
  pos ≤ n → cycle_next (seq 0 n) pos = Some (index, pos') →
  index < n ∧ pos' ≤ n ∧ (pos < n → index = pos ∧ pos' = S pos)
  ∧ (pos = n → index = 0 ∧ pos' = 1).
Proof.
  intros Hp. destruct (decide (pos < n)) as [Hlt|Hge].
  - rewrite cycle_next_range by done. intros [= <- <-]. repeat split; lia.
  - assert (pos = n) as -> by lia. rewrite cycle_next_wrap.
    destruct n as [|n]; [done|]. rewrite cycle_next_range by lia.
    intros [= <- <-]. repeat split; lia.
Qed.

Lemma draw_cval_heap σ : heap (draw_cval E σ).2 = heap σ.
Proof. unfold draw_cval. by destruct (PyRandom.randint _ _ _ _ _). Qed.

(** From [cval = ...] to the end of the body no list is written. *)
Lemma process_heap e σ : heap (process e σ).2 = heap σ.
Proof.
  unfold Generator.process. destruct e as [[filepath box] text].
  pose proof (draw_cval_heap σ) as Hc.
  destruct (draw_cval E σ) as [cval σ1]. simpl in Hc.
  destruct box as [b|]; repeat case_match; simplify_eq/=; done.
Qed.

(** What an iteration ends in is decided by the filtered text of the entry. *)
Lemma process_signal e σ :
  match (process e σ).1 with
  | Yield (_, text) => text = filter_text alphabet e.2 ∧ text ≠ []
  | Skip => filter_text alphabet e.2 = []
  | Stop => False
  | Raise => True
  end.
Proof.
  unfold Generator.process. destruct e as [[filepath box] text].
  destruct (draw_cval E σ) as [cval σ1].
  destruct box as [b|]; repeat case_match; simplify_eq/=; done.
Qed.

Lemma enter_nonzero c index σ : index ≠ 0 → enter E c index σ = σ.
Proof. intros Hi. unfold enter. by rewrite decide_False. Qed.

Lemma enter_zero c σ l :
  heap σ !! c = Some l →
  heap (enter E c 0 σ)
  = <[c := (PyRandom.shuffle (py_draw E) (py_drawn σ) l).1]> (heap σ).
Proof.
  intros Hl. unfold enter. simpl. rewrite Hl.
  by destruct (PyRandom.shuffle _ _ _).
Qed.

(** [enter] writes the generator's own list only, and rearranges it. *)
Lemma enter_heap c index σ l :
  heap σ !! c = Some l →
  ∃ l', l' ≡ₚ l ∧ heap (enter E c index σ) = <[c := l']> (heap σ).
Proof.
  intros Hl. destruct (decide (index = 0)) as [->|Hi].
  - eexists. split; [|by apply enter_zero]. apply shuffle_perm.
  - exists l. split; [done|]. rewrite enter_nonzero by done.
    by rewrite insert_id.
Qed.

Lemma start_inv r l σ :
  heap σ !! r = Some l →
  ∃ c σ', start alphabet r σ = Some (c, length l, σ')
          ∧ generator_inv r l (Looping c (length l) 0) σ'.
Proof.
  intros Hr. unfold start. rewrite Hr. eexists _, _. split; [done|].
  assert (fresh (dom (heap σ)) ≠ r) as Hne.
  { intros Heq. apply (is_fresh (dom (heap σ))). rewrite Heq.
    apply elem_of_dom. by eexists. }
  split; simpl.
  - by rewrite lookup_insert_ne.
  - split; [done|]. split; [done|]. split; [lia|].
    exists l. by rewrite lookup_insert_eq.
Qed.

Lemma iteration_inv r l c n pos σ sig g' σ' :
  generator_inv r l (Looping c n pos) σ →
  iteration c n pos σ = (sig, g', σ') →
  generator_inv r l g' σ'.
Proof.
  intros (Hr & Hc & -> & Hpos & l0 & Hl0 & Hperm). unfold Generator.iteration.
  destruct (cycle_next _ _) as [[index pos']|] eqn:Hcy;
    [|by intros [= <- <- <-]].
  apply cycle_next_index in Hcy as (_ & Hpos' & _); [|done].
  destruct (enter_heap c index σ l0 Hl0) as (l1 & Hperm1 & Hheap).
  assert (generator_inv r l (Looping c (length l) pos') (enter E c index σ)) as Hinv.
  { split; [by rewrite Hheap, lookup_insert_ne|].
    split; [done|]. split; [done|]. split; [done|].
    exists l1. split; [by rewrite Hheap, lookup_insert_eq|]. by rewrite Hperm1. }
  destruct (heap (enter E c index σ) !! c ≫= (.!! index)) as [e|];
    [|intros [= <- <- <-]; split; [apply Hinv|done]].
  pose proof (process_heap e (enter E c index σ)) as Hp.
  destruct (process e (enter E c index σ)) as [sig2 σ2]. simpl in Hp.
  assert (generator_inv r l (Looping c (length l) pos') σ2) as Hinv2.
  { unfold generator_inv in *. by rewrite Hp. }
  destruct sig2; intros [= <- <- <-]; try done.
  split; [apply Hinv2|done].
Qed.

Lemma step_inv r l g σ sig g' σ' :
  generator_inv r l g σ → step g σ = (sig, g', σ') → generator_inv r l g' σ'.
Proof.
  destruct g as [r'|c n pos|]; simpl.
  - intros [Hr ->]. destruct (start_inv r l σ Hr) as (c & σ1 & -> & Hinv).
    by apply iteration_inv.
  - apply iteration_inv.
  - intros [Hr _] [= <- <- <-]. by split.
Qed.

Lemma next_inv r l fuel g σ p g' σ' :
  generator_inv r l g σ → next fuel g σ = (p, g', σ') → generator_inv r l g' σ'.
Proof.
  revert g σ. induction fuel as [|fuel IH]; intros g σ Hinv; simpl;
    destruct (step g σ) as [[sig g1] σ1] eqn:Hs;
    pose proof (step_inv _ _ _ _ _ _ _ Hinv Hs) as Hinv1;
    destruct sig; try (by intros [= <- <- <-]).
  by apply IH.
Qed.

Lemma pulls_inv r l fuels g σ ps g' σ' :
  generator_inv r l g σ → pulls fuels g σ = (ps, g', σ') → generator_inv r l g' σ'.
Proof.
  revert g σ ps. induction fuels as [|fuel fuels IH]; intros g σ ps Hinv; simpl.
  - by intros [= <- <- <-].
  - destruct (next fuel g σ) as [[p g1] σ1] eqn:Hn.
    destruct (pulls fuels g1 σ1) as [[ps' g2] σ2] eqn:Hp.
    intros [= <- <- <-]. eapply IH; [|exact Hp]. by eapply next_inv.
Qed.

Lemma next_finished fuel σ : next fuel Finished σ = (StopIteration, Finished, σ).
Proof. by destruct fuel. Qed.

Lemma pulls_finished fuels σ :
  pulls fuels Finished σ = (replicate (length fuels) StopIteration, Finished, σ).
Proof.
  induction fuels as [|fuel fuels IH]; simpl; [done|].
  by rewrite next_finished, IH.
Qed.

Lemma steps_finished k σ : steps k Finished σ = (Finished, σ).
Proof. induction k as [|k IH]; simpl; [done|apply IH]. Qed.

(** An iteration is: take the next index, visit an entry, process it. *)
Lemma iteration_unfold c n pos σ index pos' :
  cycle_next (seq 0 n) pos = Some (index, pos') →
  iteration c n pos σ
  = match visited E c index σ with
    | None => (Raise, Finished, enter E c index σ)
    | Some e =>
        let '(sig, σ2) := process e (enter E c index σ) in
        (sig, match sig with Raise => Finished | _ => Looping c n pos' end, σ2)
    end.
Proof.
  intros Hcy. unfold Generator.iteration, visited. rewrite Hcy.
  destruct (heap (enter E c index σ) !! c ≫= (.!! index)) as [e|]; [|done].
  destruct (process e (enter E c index σ)) as [sig σ2]. by destruct sig.
Qed.

(** C9. Over an empty list the generator yields nothing: the first pull
    already ends in [StopIteration], whatever the fuel, and so does every
    later pull. *)
Theorem generator_empty_dataset_stops r σ :
  heap σ !! r = Some [] →
  (∀ fuel, ∃ σ',
      next fuel (Created r) σ = (StopIteration, Finished, σ')
      ∧ stdout σ' = stdout σ)
  ∧ (∀ fuel σ', next fuel Finished σ' = (StopIteration, Finished, σ'))
  ∧ (∀ fuels, (pulls fuels (Created r) σ).1.1 = replicate (length fuels) StopIteration).
Proof.
  intros Hr.
  assert (∀ fuel, ∃ σ', next fuel (Created r) σ = (StopIteration, Finished, σ')
                        ∧ stdout σ' = stdout σ) as Hfirst.
  { intros fuel. eexists. destruct fuel; simpl; unfold start; rewrite Hr; simpl;
      (split; [reflexivity|done]). }
  split; [exact Hfirst|]. split; [apply next_finished|].
  intros [|fuel fuels]; simpl; [done|].
  destruct (Hfirst fuel) as (σ' & -> & _). by rewrite pulls_finished.
Qed.

(** C8. However often the consumer pulls, the list it handed to the
    generator holds the same entries in the same order: the generator works
    on a list at another location, which holds those entries in some order. *)
Theorem generator_leaves_callers_list r l σ fuels :
  heap σ !! r = Some l →
  heap (pulls fuels (Created r) σ).2 !! r = Some l
  ∧ ∀ c n pos,
      (pulls fuels (Created r) σ).1.2 = Looping c n pos →
      c ≠ r ∧ ∃ l', heap (pulls fuels (Created r) σ).2 !! c = Some l' ∧ l' ≡ₚ l.
Proof.
  intros Hr. destruct (pulls fuels (Created r) σ) as [[ps g'] σ'] eqn:Hp.
  assert (generator_inv r l (Created r) σ) as Hinv by done.
  eapply pulls_inv in Hp as [Hr' Hg]; [|exact Hinv]. simpl.
  split; [done|]. intros c n pos ->. destruct Hg as (? & _ & _ & ?). done.
Qed.

(** The entry an iteration visits is one of the caller's entries. *)
Lemma visited_elem_of r l c n pos σ index e :
  generator_inv r l (Looping c n pos) σ →
  visited E c index σ = Some e → e ∈ l.
Proof.
  intros (_ & _ & _ & _ & l0 & Hl0 & Hperm). unfold visited.
  destruct (enter_heap c index σ l0 Hl0) as (l1 & Hperm1 & ->).
  rewrite lookup_insert_eq. simpl. intros He%list_elem_of_lookup_2.
  by rewrite <-Hperm, <-Hperm1.
Qed.

Lemma iteration_yield r l c n pos σ sample g' σ' :
  generator_inv r l (Looping c n pos) σ →
  iteration c n pos σ = (Yield sample, g', σ') →
  sample.2 ≠ [] ∧ ∃ e, e ∈ l ∧ sample.2 = filter_text alphabet e.2.
Proof.
  intros Hinv. destruct (cycle_next (seq 0 n) pos) as [[index pos']|] eqn:Hcy;
    [|by unfold Generator.iteration; rewrite Hcy].
  rewrite (iteration_unfold _ _ _ _ _ _ Hcy).
  destruct (visited E c index σ) as [e|] eqn:Hv; [|done].
  pose proof (process_signal e (enter E c index σ)) as Hsig.
  destruct (process e (enter E c index σ)) as [sig σ2]. simpl in Hsig.
  intros [= -> _ _]. destruct sample as [im text]. destruct Hsig as [-> Hne].
  split; [done|]. exists e. split; [|done]. by eapply visited_elem_of.
Qed.

Lemma step_yield r l g σ sample g' σ' :
  generator_inv r l g σ →
  step g σ = (Yield sample, g', σ') →
  sample.2 ≠ [] ∧ ∃ e, e ∈ l ∧ sample.2 = filter_text alphabet e.2.
Proof.
  destruct g as [r'|c n pos|]; intros Hinv; simpl;
    [|by apply (iteration_yield r)|by intros [=]].
  destruct Hinv as [Hr ->]. destruct (start_inv r l σ Hr) as (c & σ1 & -> & Hinv).
  by apply (iteration_yield r).
Qed.

Lemma next_item r l fuel g σ sample g' σ' :
  generator_inv r l g σ →
  next fuel g σ = (Item sample, g', σ') →
  sample.2 ≠ [] ∧ ∃ e, e ∈ l ∧ sample.2 = filter_text alphabet e.2.
Proof.
  revert g σ. induction fuel as [|fuel IH]; intros g σ Hinv; simpl;
    destruct (step g σ) as [[sig g1] σ1] eqn:Hs;
    destruct sig as [s| | |]; try (by intros [=]).
  - intros [= -> _ _]. by eapply step_yield.
  - intros [= -> _ _]. by eapply step_yield.
  - apply IH. by eapply step_inv.
Qed.

(** C2. The text of every pair the generator emits is the text of one of
    the entries with the characters outside the alphabet removed and the others
    left in their order, and it is not empty. An iteration over an entry whose
    filtered text is empty yields nothing: unless reading the image raised, it
    ends in [continue] and the loop goes on with the next index. With the
    alphabet [abc] the text [abcxyz] becomes [abc]. *)
Theorem generator_emits_filtered_text r l g σ :
  generator_inv r l g σ →
  (∀ fuel sample g' σ',
      next fuel g σ = (Item sample, g', σ') →
      sample.2 ≠ [] ∧ ∃ e, e ∈ l ∧ sample.2 = filter_text alphabet e.2)
  ∧ (∀ text : str,
      filter_text alphabet text `sublist_of` text
      ∧ ∀ ch, ch ∈ filter_text alphabet text ↔ ch ∈ alphabet ∧ ch ∈ text)
  ∧ (∀ c n pos σ0 index pos' e,
      cycle_next (seq 0 n) pos = Some (index, pos') →
      visited E c index σ0 = Some e →
      filter_text alphabet e.2 = [] →
      (∃ σ', iteration c n pos σ0 = (Skip, Looping c n pos', σ'))
      ∨ (∃ σ', iteration c n pos σ0 = (Raise, Finished, σ')))
  ∧ filter_text (py "abc") (py "abcxyz") = py "abc".
Proof.
  intros Hinv. split; [|split; [|split]].
  - intros fuel sample g' σ'. by eapply next_item.
  - intros text. unfold filter_text. split; [apply sublist_filter|].
    intros ch. rewrite list_elem_of_filter. unfold PyStr.char_in.
    by rewrite bool_decide_eq_true.
  - intros c n pos σ0 index pos' e Hcy Hv Hempty.
    rewrite (iteration_unfold _ _ _ _ _ _ Hcy), Hv.
    pose proof (process_signal e (enter E c index σ0)) as Hsig.
    destruct (process e (enter E c index σ0)) as [sig σ2]. simpl in Hsig.
    destruct sig as [[im text]| | |]; [|left|done|right]; try by eexists.
    destruct Hsig as [-> Hne]. done.
  - vm_compute. reflexivity.
Qed.

(** An iteration inside a pass either ends the generator (an exception) or
    moves to the next position, having written what [enter] wrote. *)
Lemma step_looping c n j σ sig g' σ' :
  j < n →
  step (Looping c n j) σ = (sig, g', σ') →
  g' = Finished ∨ (g' = Looping c n (S j) ∧ heap σ' = heap (enter E c j σ)).
Proof.
  intros Hj. simpl. rewrite (iteration_unfold _ _ _ _ _ _ (cycle_next_range n j Hj)).
  destruct (visited E c j σ) as [e|]; [|intros [= _ <- _]; by left].
  pose proof (process_heap e (enter E c j σ)) as Hp.
  destruct (process e (enter E c j σ)) as [sig2 σ2]. simpl in Hp.
  intros [= _ <- <-]. destruct sig2; (by left) || (by right).
Qed.

Lemma steps_S k g σ :
  steps (S k) g σ = steps k (step g σ).1.2 (step g σ).2.
Proof. simpl. by destruct (step g σ) as [[sig g1] σ1]. Qed.

(** Past index 0 the iterations of a pass leave every list as it is. *)
Lemma steps_later c n k : ∀ j σj g' σ',
  1 ≤ j → j + k ≤ n →
  steps k (Looping c n j) σj = (g', σ') → g' ≠ Finished →
  g' = Looping c n (j + k) ∧ heap σ' = heap σj.
Proof.
  induction k as [|k IH]; intros j σj g' σ' Hj Hjk.
  - simpl. intros [= <- <-] _. by rewrite Nat.add_0_r.
  - rewrite steps_S.
    destruct (step (Looping c n j) σj) as [[sig g1] σ1] eqn:Hs. simpl fst; simpl snd.
    apply step_looping in Hs as [->|[-> Hh]]; [| |lia].
    + rewrite steps_finished. by intros [= <- _] ?.
    + intros Hst Hne. destruct (IH (S j) σ1 g' σ' ltac:(lia) ltac:(lia) Hst Hne)
        as [-> ->].
      split; [f_equal; lia|]. rewrite Hh, enter_nonzero by lia. done.
Qed.

(** C3. The generator's list is rearranged when, and only when, an
    iteration has index 0: [enter] shuffles it there and is the identity at
    every other index, the rest of the body writes no list, and after the last
    index of a pass the cycle is back at index 0. Over a pass on [K] entries the
    iteration at position [k] visits the [k]-th entry of the list as shuffled at
    the start of the pass, which holds each entry of the list once. *)
Theorem generator_shuffles_at_index_zero c σ l :
  heap σ !! c = Some l →
  (PyRandom.shuffle (py_draw E) (py_drawn σ) l).1 ≡ₚ l
  ∧ heap (enter E c 0 σ) !! c = Some (PyRandom.shuffle (py_draw E) (py_drawn σ) l).1
  ∧ (∀ index σ0, index ≠ 0 → enter E c index σ0 = σ0)
  ∧ (∀ e σ0, heap (process e σ0).2 = heap σ0)
  ∧ (∀ σ0, iteration c (length l) (length l) σ0 = iteration c (length l) 0 σ0)
  ∧ ∀ k g' σ',
      k < length l →
      steps k (Looping c (length l) 0) σ = (g', σ') → g' ≠ Finished →
      g' = Looping c (length l) k
      ∧ cycle_next (seq 0 (length l)) k = Some (k, S k)
      ∧ visited E c k σ' = (PyRandom.shuffle (py_draw E) (py_drawn σ) l).1 !! k
      ∧ (0 < k → heap σ' !! c = Some (PyRandom.shuffle (py_draw E) (py_drawn σ) l).1).
Proof.
  intros Hl. set (l' := (PyRandom.shuffle (py_draw E) (py_drawn σ) l).1).
  assert (heap (enter E c 0 σ) !! c = Some l') as Hz.
  { by rewrite (enter_zero c σ l Hl), lookup_insert_eq. }
  split; [apply shuffle_perm|]. split; [exact Hz|].
  split; [intros index σ0; apply enter_nonzero|]. split; [apply process_heap|].
  split. { intros σ0. unfold Generator.iteration. by rewrite cycle_next_wrap. }
  intros k g' σ' Hk Hst Hne.
  assert (g' = Looping c (length l) k
          ∧ (k = 0 → σ' = σ) ∧ (0 < k → heap σ' !! c = Some l')) as (-> & H0 & Hpos).
  { destruct k as [|k].
    - simpl in Hst. injection Hst as <- <-. split; [done|]. split; [done|lia].
    - rewrite steps_S in Hst.
      destruct (step (Looping c (length l) 0) σ) as [[sig g1] σ1] eqn:Hs.
      simpl fst in Hst; simpl snd in Hst.
      apply step_looping in Hs as [->|[-> Hh]]; [| |lia].
      + rewrite steps_finished in Hst. by injection Hst as <- _.
      + destruct (steps_later c (length l) k 1 σ1 g' σ' ltac:(lia) ltac:(lia) Hst Hne)
          as [-> Hh'].
        split; [done|]. split; [lia|]. intros _. by rewrite Hh', Hh. }
  split; [done|]. split; [by apply cycle_next_range|]. split; [|exact Hpos].
  unfold visited. destruct k as [|k].
  - rewrite (H0 eq_refl), Hz. done.
  - rewrite enter_nonzero by lia. rewrite Hpos by lia. done.
Qed.

End GeneratorProperties.

(** ** The generator on the demonstration dataset *)

(** Three pulls over the three demonstration entries, one of which has no
    character of the alphabet. *)
Lemma generator_emits_filtered_text_witness :
  generator_inv DemoGen.caller DemoGen.dataset
    (Generator.Created DemoGen.caller) DemoGen.store
  ∧ ∃ sample g' σ',
      Generator.next DemoGen.tools 32 100 DemoGen.alphabet None 3
        (Generator.Created DemoGen.caller) DemoGen.store
      = (Generator.Item sample, g', σ')
      ∧ sample.2 = py "cab"
      ∧ ∃ e, e ∈ DemoGen.dataset
             ∧ sample.2 = Generator.filter_text DemoGen.alphabet e.2.
Proof.
  assert (generator_inv DemoGen.caller DemoGen.dataset
            (Generator.Created DemoGen.caller) DemoGen.store) as Hinv.
  { split; [reflexivity|reflexivity]. }
  split; [exact Hinv|].
  destruct (Generator.next DemoGen.tools 32 100 DemoGen.alphabet None 3
              (Generator.Created DemoGen.caller) DemoGen.store)
    as [[p g'] σ'] eqn:Hn.
  destruct p as [sample| | |]; try (vm_compute in Hn; discriminate Hn).
  exists sample, g', σ'. split; [reflexivity|].
  destruct (proj1 (generator_emits_filtered_text DemoGen.tools 32 100 DemoGen.alphabet
                     None DemoGen.caller DemoGen.dataset _ _ Hinv)
              3 sample g' σ' Hn) as [_ He].
  split; [|exact He]. vm_compute in Hn. by injection Hn as <- _ _.
Defined.

(** The first pass over the three demonstration entries. *)
Lemma generator_shuffles_at_index_zero_witness :
  Generator.heap DemoGen.store !! DemoGen.caller = Some DemoGen.dataset
  ∧ (PyRandom.shuffle (Generator.py_draw DemoGen.tools) 0 DemoGen.dataset).1
      ≡ₚ DemoGen.dataset
  ∧ Generator.visited DemoGen.tools DemoGen.caller 0 DemoGen.store
    = (PyRandom.shuffle (Generator.py_draw DemoGen.tools) 0 DemoGen.dataset).1 !! 0.
Proof.
  assert (Generator.heap DemoGen.store !! DemoGen.caller = Some DemoGen.dataset)
    as Hl by reflexivity.
  split; [exact Hl|].
  destruct (generator_shuffles_at_index_zero DemoGen.tools 32 100 DemoGen.alphabet None
              DemoGen.caller DemoGen.store DemoGen.dataset Hl)
    as (Hperm & _ & _ & _ & _ & Hpass).
  split; [exact Hperm|].
  destruct (Hpass 0 (Generator.Looping DemoGen.caller 3 0) DemoGen.store)
    as (_ & _ & Hv & _); [simpl; lia|reflexivity|discriminate|exact Hv].
Defined.

(** Five pulls, after which the caller's list is read again. *)
Lemma generator_leaves_callers_list_witness :
  Generator.heap DemoGen.store !! DemoGen.caller = Some DemoGen.dataset
  ∧ Generator.heap
      (Generator.pulls DemoGen.tools 32 100 DemoGen.alphabet None [3; 3; 3; 3; 3]
         (Generator.Created DemoGen.caller) DemoGen.store).2
    !! DemoGen.caller = Some DemoGen.dataset.
Proof.
  assert (Generator.heap DemoGen.store !! DemoGen.caller = Some DemoGen.dataset)
    as Hl by reflexivity.
  split; [exact Hl|].
  exact (proj1 (generator_leaves_callers_list DemoGen.tools 32 100 DemoGen.alphabet None
                  DemoGen.caller DemoGen.dataset DemoGen.store [3; 3; 3; 3; 3] Hl)).
Defined.

(** A generator over the empty list, pulled with no fuel at all. *)
Lemma generator_empty_dataset_stops_witness :
  Generator.heap DemoGen.empty_store !! DemoGen.caller = Some []
  ∧ ∃ σ',
      Generator.next DemoGen.tools 32 100 DemoGen.alphabet None 0
        (Generator.Created DemoGen.caller) DemoGen.empty_store
      = (Generator.StopIteration, Generator.Finished, σ').
Proof.
  assert (Generator.heap DemoGen.empty_store !! DemoGen.caller = Some []) as Hl by reflexivity.
  split; [exact Hl|].
  destruct (proj1 (generator_empty_dataset_stops DemoGen.tools 32 100 DemoGen.alphabet
                     None DemoGen.caller DemoGen.empty_store Hl) 0) as (σ' & Hn & _).
  by exists σ'.
Defined.

(** ** Progress: the generator does yield

    When every image can be read and some entry keeps a character of the
    alphabet, a pull returns a sample after at most two passes' worth of
    skipped entries. *)
Section GeneratorProgress.
Import Generator.
Context {B image : Type} (E : env B image).
Context (height width : Z) (alphabet : str) (augmenter : option (image → image)).
Implicit Types (σ : world B) (l : list (entry B)) (e : entry B) (g : gen) (r c : loc).

Hypothesis read_ok : ∀ path, is_Some (read E path).
Hypothesis warpBox_ok : ∀ im b h w cval, is_Some (warpBox E im b h w cval).
Hypothesis read_and_fit_ok : ∀ path w h cval, is_Some (read_and_fit E path w h cval).

Local Abbreviation process := (process E height width alphabet augmenter).
Local Abbreviation iteration := (iteration E height width alphabet augmenter).
Local Abbreviation next := (next E height width alphabet augmenter).

Lemma process_loaded e σ :
  if decide (filter_text alphabet e.2 = [])
  then (process e σ).1 = Skip
  else ∃ sample, (process e σ).1 = Yield sample.
Proof.
  unfold Generator.process. destruct e as [[filepath box] text]. cbn [snd].
  destruct (draw_cval E σ) as [cval σ1].
  destruct box as [b|].
  - destruct (read_ok filepath) as [im ->]. simpl.
    destruct (warpBox_ok im b height width cval) as [im' ->].
    case_decide; simpl; eauto.
  - destruct (read_and_fit_ok filepath width height cval) as [im ->].
    case_decide; simpl; eauto.
Qed.

(** One iteration at a position inside a pass, past index 0. *)
Lemma iteration_inside c n pos σ l e :
  1 ≤ pos → pos < n → heap σ !! c = Some l → l !! pos = Some e →
  if decide (filter_text alphabet e.2 = [])
  then ∃ σ', iteration c n pos σ = (Skip, Looping c n (S pos), σ') ∧ heap σ' = heap σ
  else ∃ sample σ', iteration c n pos σ = (Yield sample, Looping c n (S pos), σ').
Proof.
  intros Hpos Hn Hl He.
  rewrite (iteration_unfold E height width alphabet augmenter _ _ _ _ _ _
             (cycle_next_range n pos Hn)).
  unfold visited. rewrite enter_nonzero by lia. rewrite Hl. simpl. rewrite He.
  pose proof (process_loaded e σ) as Hp.
  pose proof (process_heap E height width alphabet augmenter e σ) as Hh.
  destruct (process e σ) as [sig σ2]. simpl in *.
  case_decide.
  - subst sig. by eexists.
  - destruct Hp as [sample ->]. by eexists _, _.
Qed.

(** An entry that keeps some character, [d] positions ahead in the pass, is
    reached with [d] units of fuel. *)
Lemma next_reaches c n d : ∀ pos σ l e fuel,
  1 ≤ pos → pos + d < n → heap σ !! c = Some l →
  l !! (pos + d) = Some e → filter_text alphabet e.2 ≠ [] →
  d ≤ fuel →
  ∃ sample g' σ', next fuel (Looping c n pos) σ = (Item sample, g', σ').
Proof.
  induction d as [|d IH]; intros pos σ l e fuel Hpos Hn Hl He Hgood Hfuel.
  - rewrite Nat.add_0_r in He.
    pose proof (iteration_inside c n pos σ l e Hpos ltac:(lia) Hl He) as Hit.
    rewrite decide_False in Hit by done. destruct Hit as (sample & σ' & Hit).
    exists sample, (Looping c n (S pos)), σ'.
    destruct fuel; simpl; by rewrite Hit.
  - destruct (lookup_lt_is_Some_2 l pos) as [e0 He0].
    { apply lookup_lt_Some in He. lia. }
    pose proof (iteration_inside c n pos σ l e0 Hpos ltac:(lia) Hl He0) as Hit.
    case_decide.
    + destruct Hit as (σ' & Hit & Hh). destruct fuel as [|fuel]; [lia|].
      simpl. rewrite Hit.
      apply (IH (S pos) σ' l e fuel); try done; try lia.
      * by rewrite Hh.
      * by rewrite <-He; f_equal; lia.
    + destruct Hit as (sample & σ' & Hit).
      exists sample, (Looping c n (S pos)), σ'. destruct fuel; simpl; by rewrite Hit.
Qed.

(** At the start of a pass. *)
Lemma next_from_pass_start c n σ l e fuel :
  heap σ !! c = Some l → length l = n → e ∈ l → filter_text alphabet e.2 ≠ [] →
  n ≤ fuel →
  ∃ sample g' σ', next fuel (Looping c n 0) σ = (Item sample, g', σ').
Proof.
  intros Hl Hlen Hin Hgood Hfuel.
  set (l' := (PyRandom.shuffle (py_draw E) (py_drawn σ) l).1).
  assert (heap (enter E c 0 σ) !! c = Some l') as Hl'.
  { by rewrite (enter_zero E c σ l Hl), lookup_insert_eq. }
  assert (length l' = n) as Hlen' by (by unfold l'; rewrite shuffle_length).
  assert (e ∈ l') as Hin' by (by unfold l'; rewrite shuffle_perm).
  apply list_elem_of_lookup in Hin' as [j Hj].
  assert (j < n) as Hjn by (apply lookup_lt_Some in Hj; lia).
  destruct (lookup_lt_is_Some_2 l' 0) as [e0 He0]; [lia|].
  assert (0 < n) as Hn by lia.
  pose proof (iteration_unfold E height width alphabet augmenter c n 0 σ 0 1
                (cycle_next_range n 0 Hn)) as Hit.
  unfold visited in Hit. rewrite Hl' in Hit. simpl in Hit. rewrite He0 in Hit.
  pose proof (process_loaded e0 (enter E c 0 σ)) as Hp.
  pose proof (process_heap E height width alphabet augmenter e0 (enter E c 0 σ)) as Hh.
  destruct (process e0 (enter E c 0 σ)) as [sig σ2]. simpl in *.
  case_decide as He0good.
  - subst sig. destruct fuel as [|fuel]; [lia|]. simpl. rewrite Hit.
    destruct j as [|j]; [by simplify_eq|].
    apply (next_reaches c n j 1 σ2 l' e fuel); try done; try lia.
    by rewrite Hh.
  - destruct Hp as [sample ->]. exists sample, (Looping c n 1), σ2.
    destruct fuel; simpl; by rewrite Hit.
Qed.

(** Anywhere in a pass: to the end of it, and through the next one. *)
Lemma next_from_inside c n e l0 k : ∀ pos σ l fuel,
  n - pos ≤ k → 1 ≤ pos → pos ≤ n →
  heap σ !! c = Some l → length l = n → l ≡ₚ l0 →
  e ∈ l0 → filter_text alphabet e.2 ≠ [] →
  (n - pos) + n ≤ fuel →
  ∃ sample g' σ', next fuel (Looping c n pos) σ = (Item sample, g', σ').
Proof.
  induction k as [|k IH]; intros pos σ l fuel Hk Hpos Hpn Hl Hlen Hperm Hin Hgood Hfuel.
  - assert (pos = n) as -> by lia.
    assert (∃ sample g' σ', next fuel (Looping c n 0) σ = (Item sample, g', σ')) as Hs.
    { apply (next_from_pass_start c n σ l e fuel); try done; [by rewrite Hperm|lia]. }
    destruct Hs as (sample & g' & σ' & Hs). exists sample, g', σ'.
    rewrite <-Hs. destruct fuel; simpl; unfold Generator.iteration;
      by rewrite cycle_next_wrap.
  - destruct (decide (pos = n)) as [->|Hne].
    { apply (IH n σ l fuel); try done; lia. }
    destruct (lookup_lt_is_Some_2 l pos) as [e0 He0]; [lia|].
    pose proof (iteration_inside c n pos σ l e0 Hpos ltac:(lia) Hl He0) as Hit.
    case_decide.
    + destruct Hit as (σ' & Hit & Hh). destruct fuel as [|fuel]; [lia|].
      simpl. rewrite Hit.
      apply (IH (S pos) σ' l fuel); try done; try lia. by rewrite Hh.
    + destruct Hit as (sample & σ' & Hit).
      exists sample, (Looping c n (S pos)), σ'. destruct fuel; simpl; by rewrite Hit.
Qed.

(** A generator that has not finished, over a list with an entry that keeps
    a character, yields on the next pull, given fuel for two passes. *)
Lemma next_yields r l g σ e fuel :
  generator_inv r l g σ → g ≠ Finished →
  e ∈ l → filter_text alphabet e.2 ≠ [] →
  2 * length l ≤ fuel →
  ∃ sample g' σ', next fuel g σ = (Item sample, g', σ').
Proof.
  intros Hinv Hg Hin Hgood Hfuel.
  assert (∀ c n σ0 l1, heap σ0 !! c = Some l1 → length l1 = n → l1 ≡ₚ l → n = length l →
            ∀ pos, pos ≤ n →
            ∃ sample g' σ', next fuel (Looping c n pos) σ0 = (Item sample, g', σ'))
    as Hloop.
  { intros c n σ0 l1 Hl1 Hlen Hperm Hn pos Hpos.
    destruct (decide (pos = 0)) as [->|Hp0].
    - apply (next_from_pass_start c n σ0 l1 e fuel); try done; [by rewrite Hperm|lia].
    - apply (next_from_inside c n e l (n - pos) pos σ0 l1 fuel); try done; lia. }
  destruct g as [r'|c n pos|]; [| |done].
  - destruct Hinv as [Hr ->].
    destruct (start_inv alphabet r l σ Hr) as (c & σ1 & Hs & _ & _ & _ & _ & l1 & Hl1 & Hp1).
    destruct (Hloop c (length l) σ1 l1 Hl1 ltac:(by rewrite Hp1) Hp1 eq_refl 0 ltac:(lia))
      as (sample & g' & σ' & Hn).
    exists sample, g', σ'. rewrite <-Hn. destruct fuel; simpl; by rewrite Hs.
  - destruct Hinv as (_ & _ & -> & Hpos & l1 & Hl1 & Hp1).
    apply (Hloop c (length l) σ l1 Hl1 ltac:(by rewrite Hp1) Hp1 eq_refl pos Hpos).
Qed.

End GeneratorProgress.

(** * Further properties of the code *)

(** ** The label parser: round trip and lines without a label *)
Section ParserRoundTrip.
Import PyStr.

Lemma lstrip_length s : length (lstrip s) ≤ length s.
Proof.
  induction s as [|c s IH]; simpl; [done|]. destruct (is_space c); simpl; lia.
Qed.

Lemma lstrip_nonspace c s : is_space c = false → lstrip (c :: s) = c :: s.
Proof. intros Hc. simpl. by rewrite Hc. Qed.

Lemma lstrip_spaces ws s : Forall (λ c, is_space c = true) ws → lstrip (ws ++ s) = lstrip s.
Proof. induction 1 as [|c ws Hc _ IH]; simpl; [done|]. by rewrite Hc. Qed.

(** A string that [lstrip] leaves alone is empty or starts with a character
    that is not white space. *)
Lemma lstrip_fixed_app f c s :
  lstrip f = f → is_space c = false → lstrip (f ++ c :: s) = f ++ c :: s.
Proof.
  intros Hf Hc. destruct f as [|a f]; simpl in *; [by rewrite Hc|].
  destruct (is_space a); [|done].
  pose proof (lstrip_length f) as Hlen. rewrite Hf in Hlen. simpl in Hlen. lia.
Qed.

Lemma rstrip_nonspace_spaces s c ws :
  is_space c = false → Forall (λ c, is_space c = true) ws →
  rstrip (s ++ c :: ws) = s ++ [c].
Proof.
  intros Hc Hws. unfold rstrip.
  rewrite reverse_app, reverse_cons, <-app_assoc.
  rewrite lstrip_spaces by (by apply Forall_reverse).
  simpl. rewrite Hc. by rewrite reverse_cons, reverse_involutive.
Qed.

Lemma split_no_sep sep s : sep ∉ s → split sep s = [s].
Proof.
  induction s as [|c s IH]; simpl; [done|].
  rewrite not_elem_of_cons. intros [Hc Hs].
  rewrite decide_False by done. by rewrite IH.
Qed.

Lemma split_app_sep sep f s : sep ∉ f → split sep (f ++ sep :: s) = f :: split sep s.
Proof.
  induction f as [|c f IH]; simpl.
  - intros _. by rewrite decide_True.
  - rewrite not_elem_of_cons. intros [Hc Hf].
    rewrite decide_False by done. by rewrite IH.
Qed.

Lemma elem_of_lstrip x s : x ∈ lstrip s → x ∈ s.
Proof.
  induction s as [|c s IH]; simpl; [done|].
  destruct (is_space c); [|done]. intros ?%IH. apply elem_of_cons. by right.
Qed.

Lemma elem_of_strip x s : x ∈ strip s → x ∈ s.
Proof.
  unfold strip, rstrip. rewrite elem_of_reverse. intros H.
  apply elem_of_lstrip in H. rewrite elem_of_reverse in H. by apply elem_of_lstrip.
Qed.

Lemma lstrip_all_spaces s : Forall (λ c, is_space c = true) s → lstrip s = [].
Proof. induction 1 as [|c s Hc _ IH]; simpl; [done|]. by rewrite Hc. Qed.

Lemma parse_line_of_split {B} image_folder l first rest :
  split Labels.comma (strip l) = first :: rest →
  Labels.parse_line (B:=B) image_folder l
  = Some (OsPath.join image_folder first, None,
          slice_1_m1 (strip (join [Labels.comma] rest))).
Proof. intros Hs. unfold Labels.parse_line. by rewrite Hs. Qed.

End ParserRoundTrip.

(** X1. A record written as [filename,"text"] followed by any white space
    parses back to the file joined to the image folder and the text, whatever
    the text holds (commas, quotes, blanks), provided the file name holds no
    comma and does not start with white space. *)
Theorem parse_line_round_trip (B : Type) (image_folder filename text ws : str) :
  Labels.comma ∉ filename →
  PyStr.lstrip filename = filename →
  Forall (λ c, PyStr.is_space c = true) ws →
  Labels.parse_line (B:=B) image_folder
    (filename ++ [Labels.comma] ++ [dquote] ++ text ++ [dquote] ++ ws)
  = Some (OsPath.join image_folder filename, None, text).
Proof.
  intros Hcomma Hf Hws.
  assert (PyStr.strip (filename ++ [Labels.comma] ++ [dquote] ++ text ++ [dquote] ++ ws)
          = filename ++ Labels.comma :: (dquote :: text ++ [dquote])) as Hstrip.
  { unfold PyStr.strip. simpl. rewrite lstrip_fixed_app by done.
    replace (filename ++ Labels.comma :: dquote :: text ++ dquote :: ws)
      with ((filename ++ Labels.comma :: dquote :: text) ++ dquote :: ws)
      by (by rewrite <-app_assoc).
    rewrite rstrip_nonspace_spaces by done. by rewrite <-app_assoc. }
  rewrite (parse_line_of_split image_folder _ filename
             (PyStr.split Labels.comma (dquote :: text ++ [dquote]))).
  - rewrite join_split.
    assert (PyStr.strip (dquote :: text ++ [dquote]) = dquote :: text ++ [dquote]) as ->.
    { unfold PyStr.strip. rewrite lstrip_nonspace by done.
      change (dquote :: text ++ [dquote]) with ((dquote :: text) ++ [dquote]).
      by rewrite (rstrip_nonspace_spaces (dquote :: text) dquote []). }
    by rewrite <-(slice_1_m1_wrapped dquote dquote text) at 2.
  - rewrite Hstrip. by apply split_app_sep.
Qed.

(** A label that itself holds a comma and quotes. *)
Lemma parse_line_round_trip_witness :
  (Labels.comma ∉ py "word_7.png")
  ∧ PyStr.lstrip (py "word_7.png") = py "word_7.png"
  ∧ Labels.parse_line (B:=unit) (py "/data/train")
      (py "word_7.png" ++ [Labels.comma] ++ [dquote]
         ++ (py "a, " ++ [dquote] ++ py "b" ++ [dquote]) ++ [dquote] ++ [" "%char; LF])
    = Some (py "/data/train/word_7.png", None, py "a, " ++ [dquote] ++ py "b" ++ [dquote]).
Proof.
  assert (Labels.comma ∉ py "word_7.png") as Hc.
  { intros Hin. apply list_elem_of_In in Hin. vm_compute in Hin. intuition discriminate. }
  split; [exact Hc|]. split; [reflexivity|].
  exact (parse_line_round_trip unit (py "/data/train") (py "word_7.png")
           (py "a, " ++ [dquote] ++ py "b" ++ [dquote]) [" "%char; LF] Hc eq_refl
           ltac:(repeat constructor)).
Defined.

(** X2. A line without a comma, a blank line included, is not skipped and
    raises nothing: it gives an entry whose path is the stripped line joined to
    the image folder and whose text is empty. For a line of white space only
    the path is the image folder joined with the empty string. *)
Theorem parse_line_without_comma (B : Type) (image_folder line : str) :
  Labels.comma ∉ line →
  Labels.parse_line (B:=B) image_folder line
  = Some (OsPath.join image_folder (PyStr.strip line), None, [])
  ∧ (Forall (λ c, PyStr.is_space c = true) line → PyStr.strip line = []).
Proof.
  intros Hcomma. split.
  - rewrite (parse_line_of_split image_folder line (PyStr.strip line) []); [done|].
    apply split_no_sep. intros Hin. by apply elem_of_strip in Hin.
  - intros Hws. unfold PyStr.strip. by rewrite lstrip_all_spaces.
Qed.

Lemma parse_line_without_comma_witness :
  (Labels.comma ∉ [" "%char; LF])
  ∧ Labels.parse_line (B:=unit) (py "/data/train") [" "%char; LF]
    = Some (py "/data/train/", None, []).
Proof.
  assert (Labels.comma ∉ [" "%char; LF]) as Hc.
  { intros Hin. apply list_elem_of_In in Hin. vm_compute in Hin. intuition discriminate. }
  split; [exact Hc|].
  exact (proj1 (parse_line_without_comma unit (py "/data/train") [" "%char; LF] Hc)).
Defined.

(** ** The Born-Digital function, split by split *)
Section BornDigital.
Import Fetch.
Context {num B : Type} (E : env num).

Lemma parse_line_box image_folder l (e : entry B) :
  Labels.parse_line image_folder l = Some e → e.1.2 = None.
Proof.
  unfold Labels.parse_line. destruct (_ !! 0); [|done]. by intros [= <-].
Qed.

Lemma parse_lines_spec image_folder lines (es : list (entry B)) :
  Labels.parse_lines image_folder lines = Some es →
  length es = length lines ∧ Forall (λ e, e.1.2 = None) es.
Proof.
  unfold Labels.parse_lines. intros H%mapM_Some_1. split.
  - symmetry. by eapply Forall2_length.
  - induction H as [|l e ls es He _ IH]; constructor; [|done].
    by eapply parse_line_box.
Qed.

(** What the labels file reader did when it returned. *)
Lemma read_labels_inr labels_filepath image_folder log (es : list (entry B)) log' :
  _read_born_digital_labels_file E labels_filepath image_folder log = (inr es, log') →
  log' = log ++ [EvOpen labels_filepath]
  ∧ ∃ lines, file_lines E labels_filepath = Some lines
             ∧ Labels.parse_lines image_folder lines = Some es.
Proof.
  unfold _read_born_digital_labels_file, bind, emit, lift.
  destruct (file_lines E labels_filepath) as [lines|]; simpl; [|done].
  destruct (Labels.parse_lines image_folder lines) as [es'|] eqn:Hp; simpl; [|done].
  intros [= <- <-]. eauto.
Qed.

Import BornDigitalPaths.

Lemma train_in_train : bool_decide (py "train" ∈ [py "train"; py "traintest"]) = true.
Proof. vm_compute. reflexivity. Qed.
Lemma train_in_test : bool_decide (py "train" ∈ [py "test"; py "traintest"]) = false.
Proof. vm_compute. reflexivity. Qed.
Lemma test_in_train : bool_decide (py "test" ∈ [py "train"; py "traintest"]) = false.
Proof. vm_compute. reflexivity. Qed.
Lemma test_in_test : bool_decide (py "test" ∈ [py "test"; py "traintest"]) = true.
Proof. vm_compute. reflexivity. Qed.
Lemma traintest_in_train :
  bool_decide (py "traintest" ∈ [py "train"; py "traintest"]) = true.
Proof. vm_compute. reflexivity. Qed.
Lemma traintest_in_test :
  bool_decide (py "traintest" ∈ [py "test"; py "traintest"]) = true.
Proof. vm_compute. reflexivity. Qed.

(** The two halves of the function, as it runs them. *)
Lemma born_digital_train_run cache_dir log :
  get_born_digital_recognizer_dataset (B:=B) E (py "train") cache_dir log
  = match fetched E train_url (main_dir E cache_dir) with
    | None => (inl (DownloadError train_url),
               log ++ [EvDownload train_url (main_dir E cache_dir) (Some train_sha256)])
    | Some zip =>
        let log1 := log ++ [EvDownload train_url (main_dir E cache_dir) (Some train_sha256)]
                        ++ [EvExtractAll zip (train_dir E cache_dir)] in
        if extracts E zip (train_dir E cache_dir) then
          match _read_born_digital_labels_file E
                  (OsPath.join (train_dir E cache_dir) (py "gt.txt"))
                  (train_dir E cache_dir) log1 with
          | (inl e, log2) => (inl e, log2)
          | (inr more, log2) => (inr more, log2)
          end
        else (inl (ZipError zip), log1)
    end.
Proof.
  unfold get_born_digital_recognizer_dataset. rewrite train_in_train, train_in_test.
  fold (main_dir E cache_dir). fold (train_dir E cache_dir).
  fold train_url. fold train_sha256.
  unfold download_and_verify, zip_extractall, bind, emit, lift, ret, or_raise.
  destruct (fetched E train_url (main_dir E cache_dir)) as [zip|]; [|done].
  rewrite <-!app_assoc. simpl.
  destruct (extracts E zip (train_dir E cache_dir)); [|done].
  by destruct (_read_born_digital_labels_file _ _ _ _) as [[e|more] log2].
Qed.

Lemma born_digital_test_run cache_dir log :
  get_born_digital_recognizer_dataset (B:=B) E (py "test") cache_dir log
  = match fetched E test_url (main_dir E cache_dir) with
    | None => (inl (DownloadError test_url),
               log ++ [EvDownload test_url (main_dir E cache_dir) (Some test_sha256)])
    | Some zip =>
        let log1 := log ++ [EvDownload test_url (main_dir E cache_dir) (Some test_sha256)]
                        ++ [EvExtractAll zip (test_dir E cache_dir)] in
        if extracts E zip (test_dir E cache_dir) then
          let log2 := log1 ++ [EvDownload test_gt_url (test_dir E cache_dir)
                                 (Some test_gt_sha256)] in
          match fetched E test_gt_url (test_dir E cache_dir) with
          | None => (inl (DownloadError test_gt_url), log2)
          | Some test_gt_path =>
              match _read_born_digital_labels_file E test_gt_path
                      (test_dir E cache_dir) log2 with
              | (inl e, log3) => (inl e, log3)
              | (inr more, log3) => (inr more, log3)
              end
          end
        else (inl (ZipError zip), log1)
    end.
Proof.
  unfold get_born_digital_recognizer_dataset. rewrite test_in_train, test_in_test.
  fold (main_dir E cache_dir). fold (test_dir E cache_dir).
  fold test_url. fold test_sha256. fold test_gt_url. fold test_gt_sha256.
  unfold download_and_verify, zip_extractall, bind, emit, lift, ret, or_raise.
  destruct (fetched E test_url (main_dir E cache_dir)) as [zip|]; [|done].
  rewrite <-!app_assoc. simpl.
  destruct (extracts E zip (test_dir E cache_dir)); [|done].
  rewrite <-!app_assoc. simpl.
  destruct (fetched E test_gt_url (test_dir E cache_dir)) as [gt|]; [|done].
  by destruct (_read_born_digital_labels_file _ _ _ _) as [[e|more] log3].
Qed.

(** X3. The split [traintest] is the split [train] followed by the split
    [test]: when the first fails the call fails in the same way, with the same
    I/O done and none of the second attempted; otherwise the second runs after
    it, and the dataset is the entries of [train] followed by those of
    [test]. *)
Theorem born_digital_traintest_composes cache_dir log :
  get_born_digital_recognizer_dataset (B:=B) E (py "traintest") cache_dir log
  = match get_born_digital_recognizer_dataset (B:=B) E (py "train") cache_dir log with
    | (inl e, log1) => (inl e, log1)
    | (inr train, log1) =>
        match get_born_digital_recognizer_dataset (B:=B) E (py "test") cache_dir log1 with
        | (inl e, log2) => (inl e, log2)
        | (inr test, log2) => (inr (train ++ test), log2)
        end
    end.
Proof.
  rewrite born_digital_train_run.
  unfold get_born_digital_recognizer_dataset at 1.
  rewrite traintest_in_train, traintest_in_test.
  fold (main_dir E cache_dir). fold (train_dir E cache_dir). fold (test_dir E cache_dir).
  fold train_url. fold train_sha256.
  fold test_url. fold test_sha256. fold test_gt_url. fold test_gt_sha256.
  unfold download_and_verify, zip_extractall, bind, emit, lift, ret, or_raise.
  destruct (fetched E train_url (main_dir E cache_dir)) as [zip|]; [|done].
  rewrite <-!app_assoc. simpl.
  destruct (extracts E zip (train_dir E cache_dir)); [|done].
  destruct (_read_born_digital_labels_file _ _ _ _) as [[e|train] log1]; [done|].
  rewrite born_digital_test_run.
  destruct (fetched E test_url (main_dir E cache_dir)) as [zip2|]; [|done].
  rewrite <-!app_assoc. simpl.
  destruct (extracts E zip2 (test_dir E cache_dir)); [|done].
  rewrite <-!app_assoc. simpl.
  destruct (fetched E test_gt_url (test_dir E cache_dir)) as [gt|]; [|done].
  by destruct (_read_born_digital_labels_file _ _ _ _) as [[e|test] log3].
Qed.

(** X4. A call for the split [train] that returns has downloaded the
    training archive into [<cache>/borndigital], extracted it into
    [<cache>/borndigital/train] and read [gt.txt] there, in this order and
    nothing else; it returns one entry per line of that file. *)
Theorem born_digital_train_io cache_dir log (data : list (entry B)) log' :
  get_born_digital_recognizer_dataset (B:=B) E (py "train") cache_dir log
  = (inr data, log') →
  ∃ zip lines,
    fetched E train_url (main_dir E cache_dir) = Some zip
    ∧ file_lines E (OsPath.join (train_dir E cache_dir) (py "gt.txt")) = Some lines
    ∧ Labels.parse_lines (train_dir E cache_dir) lines = Some data
    ∧ length data = length lines
    ∧ log' = log ++ [EvDownload train_url (main_dir E cache_dir) (Some train_sha256);
                     EvExtractAll zip (train_dir E cache_dir);
                     EvOpen (OsPath.join (train_dir E cache_dir) (py "gt.txt"))].
Proof.
  rewrite born_digital_train_run.
  destruct (fetched E train_url (main_dir E cache_dir)) as [zip|]; [|done]. simpl.
  destruct (extracts E zip (train_dir E cache_dir)); [|done].
  destruct (_read_born_digital_labels_file _ _ _ _) as [[e|more] log2] eqn:Hr; [done|].
  intros [= -> ->]. apply read_labels_inr in Hr as (-> & lines & Hl & Hp).
  exists zip, lines. split; [done|]. split; [done|]. split; [done|].
  split; [by apply parse_lines_spec in Hp as [? _]|]. by rewrite <-!app_assoc.
Qed.

(** X5. A call for the split [test] that returns has downloaded the test
    archive into [<cache>/borndigital], extracted it into
    [<cache>/borndigital/test], downloaded the ground truth file into that
    directory, and read the file at the path that download returned; the
    images of the entries are looked for in [<cache>/borndigital/test]. *)
Theorem born_digital_test_io cache_dir log (data : list (entry B)) log' :
  get_born_digital_recognizer_dataset (B:=B) E (py "test") cache_dir log
  = (inr data, log') →
  ∃ zip test_gt_path lines,
    fetched E test_url (main_dir E cache_dir) = Some zip
    ∧ fetched E test_gt_url (test_dir E cache_dir) = Some test_gt_path
    ∧ file_lines E test_gt_path = Some lines
    ∧ Labels.parse_lines (test_dir E cache_dir) lines = Some data
    ∧ length data = length lines
    ∧ log' = log ++ [EvDownload test_url (main_dir E cache_dir) (Some test_sha256);
                     EvExtractAll zip (test_dir E cache_dir);
                     EvDownload test_gt_url (test_dir E cache_dir) (Some test_gt_sha256);
                     EvOpen test_gt_path].
Proof.
  rewrite born_digital_test_run.
  destruct (fetched E test_url (main_dir E cache_dir)) as [zip|]; [|done]. simpl.
  destruct (extracts E zip (test_dir E cache_dir)); [|done].
  destruct (fetched E test_gt_url (test_dir E cache_dir)) as [gt|] eqn:Hgt; [|done].
  destruct (_read_born_digital_labels_file _ _ _ _) as [[e|more] log2] eqn:Hr; [done|].
  intros [= -> ->]. apply read_labels_inr in Hr as (-> & lines & Hl & Hp).
  exists zip, gt, lines. repeat (split; [done|]).
  split; [by apply parse_lines_spec in Hp as [? _]|]. by rewrite <-!app_assoc.
Qed.

(** X6. Whatever the split, no entry of a Born-Digital dataset has a box. *)
Theorem born_digital_boxes_none split cache_dir log (data : list (entry B)) log' :
  get_born_digital_recognizer_dataset (B:=B) E split cache_dir log = (inr data, log') →
  Forall (λ e, e.1.2 = None) data.
Proof.
  unfold get_born_digital_recognizer_dataset.
  unfold download_and_verify, zip_extractall, bind, emit, lift, ret, or_raise.
  repeat case_bool_decide;
    repeat (match goal with
            | |- context [fetched E ?u ?d] => destruct (fetched E u d)
            | |- context [extracts E ?z ?d] => destruct (extracts E z d)
            | |- context [_read_born_digital_labels_file E ?p ?d ?l] =>
                let Hr := fresh "Hr" in
                destruct (_read_born_digital_labels_file E p d l) as [[?|?] ?] eqn:Hr
            end; try done);
    intros [= <- <-];
    repeat match goal with
           | H : _read_born_digital_labels_file _ _ _ _ = _ |- _ =>
               apply read_labels_inr in H as (_ & ? & _ & [_ ?]%parse_lines_spec)
           end;
    simpl; rewrite ?Forall_app; auto.
Qed.

End BornDigital.

Lemma born_digital_train_io_witness :
  ∃ data log',
    Fetch.get_born_digital_recognizer_dataset (B:=unit) DemoLabels.world (py "train")
      None [] = (inr data, log')
    ∧ length data = 3
    ∧ data !! 1 = Some (py "/home/u/.keras-ocr/borndigital/train/word_2.png", None,
                        py "kills, a lot").
Proof.
  destruct (Fetch.get_born_digital_recognizer_dataset (B:=unit) DemoLabels.world
              (py "train") None []) as [[e|data] log'] eqn:Hrun;
    [vm_compute in Hrun; discriminate Hrun|].
  destruct (born_digital_train_io (B:=unit) DemoLabels.world None [] data log' Hrun)
    as (zip & lines & _ & Hl & _ & Hlen & _).
  exists data, log'. split; [reflexivity|]. injection Hl as <-.
  split; [exact Hlen|]. vm_compute in Hrun. by injection Hrun as <- _.
Defined.

Lemma born_digital_test_io_witness :
  ∃ data log',
    Fetch.get_born_digital_recognizer_dataset (B:=unit) DemoLabels.world (py "test")
      None [] = (inr data, log')
    ∧ length data = 3
    ∧ length log' = 4.
Proof.
  destruct (Fetch.get_born_digital_recognizer_dataset (B:=unit) DemoLabels.world
              (py "test") None []) as [[e|data] log'] eqn:Hrun;
    [vm_compute in Hrun; discriminate Hrun|].
  destruct (born_digital_test_io (B:=unit) DemoLabels.world None [] data log' Hrun)
    as (zip & gt & lines & _ & _ & Hl & _ & Hlen & Hlog).
  exists data, log'. split; [reflexivity|]. injection Hl as <-.
  split; [exact Hlen|by rewrite Hlog].
Defined.

Lemma born_digital_boxes_none_witness :
  ∃ data log',
    Fetch.get_born_digital_recognizer_dataset (B:=unit) DemoLabels.world (py "traintest")
      None [] = (inr data, log')
    ∧ length data = 6
    ∧ Forall (λ e, e.1.2 = None) data.
Proof.
  destruct (Fetch.get_born_digital_recognizer_dataset (B:=unit) DemoLabels.world
              (py "traintest") None []) as [[e|data] log'] eqn:Hrun;
    [vm_compute in Hrun; discriminate Hrun|].
  pose proof (born_digital_boxes_none (B:=unit) DemoLabels.world _ _ _ _ _ Hrun) as Hb.
  exists data, log'. split; [reflexivity|]. split; [|exact Hb].
  vm_compute in Hrun. by injection Hrun as <- _.
Defined.

(** ** Where the two functions write *)
Section CacheDirectories.
Import Fetch.
Context {num : Type} (E : env num).

Lemma emits_ret {A} P (a : A) : emits_only P (ret a).
Proof. intros log. exists []. by rewrite app_nil_r. Qed.

Lemma emits_raise {A} P e : emits_only P (raise (A:=A) e).
Proof. intros log. exists []. by rewrite app_nil_r. Qed.

Lemma emits_lift {A} P (r : res A) : emits_only P (lift r).
Proof. intros log. exists []. by rewrite app_nil_r. Qed.

Lemma emits_emit P e : P e → emits_only P (emit e).
Proof. intros He log. exists [e]. split; [done|]. by constructor. Qed.

Lemma emits_bind {A C} P (m : IO A) (k : A → IO C) :
  emits_only P m → (∀ a, emits_only P (k a)) → emits_only P (bind m k).
Proof.
  intros Hm Hk log. unfold bind. destruct (Hm log) as (ev1 & Hlog1 & H1).
  destruct (m log) as [[e|a] log1]; simpl in *; subst log1; [by exists ev1|].
  destruct (Hk a (log ++ ev1)) as (ev2 & -> & H2).
  exists (ev1 ++ ev2). split; [by rewrite app_assoc|]. by apply Forall_app.
Qed.

Lemma emits_download P url cache_dir sha :
  P (EvDownload url cache_dir sha) →
  emits_only P (download_and_verify E url cache_dir sha).
Proof.
  intros HP. apply emits_bind; [by apply emits_emit|]. intros _. apply emits_lift.
Qed.

Lemma emits_extractall P zip dir :
  P (EvExtractAll zip dir) → emits_only P (zip_extractall E zip dir).
Proof.
  intros HP. apply emits_bind; [by apply emits_emit|]. intros _.
  destruct (extracts E zip dir); [apply emits_ret|apply emits_raise].
Qed.

Lemma emits_read_labels {B} P path dir :
  P (EvOpen path) → emits_only P (_read_born_digital_labels_file (B:=B) E path dir).
Proof.
  intros HP. apply emits_bind; [by apply emits_emit|]. intros _.
  apply emits_bind; [apply emits_lift|]. intros lines. apply emits_lift.
Qed.

Lemma emits_zip_read P zip :
  P (EvZipRead zip (py "cocotext.v2.json")) → emits_only P (zip_read_json E zip).
Proof.
  intros HP. apply emits_bind; [by apply emits_emit|]. intros _. apply emits_lift.
Qed.

Lemma emits_download_images P order images_dir filenames :
  (∀ f, f ∈ filenames → P (EvDownload (image_url f) images_dir None)) →
  emits_only P (download_images E order images_dir filenames).
Proof.
  intros HP log. unfold download_images. simpl. eexists. split; [done|].
  apply Forall_forall. intros ev (i & _ & Hi)%list_elem_of_omap.
  destruct (filenames !! i) as [f|] eqn:Hf; simplify_eq/=.
  apply HP. by eapply list_elem_of_lookup_2.
Qed.

(** The second argument of [os.path.join] is appended when it is relative. *)
Lemma join_prefix a b : PyStr.startswith [OsPath.sep] b = false → a `prefix_of` OsPath.join a b.
Proof.
  intros Hb. unfold OsPath.join. rewrite Hb.
  destruct (_ || _); [by exists b|]. by exists ([OsPath.sep] ++ b).
Qed.

Lemma emits_created_dirs {A} root (m : IO A) log d :
  emits_only (creates_under root) m →
  d ∈ created_dirs (m log).2 → d ∈ created_dirs log ∨ root `prefix_of` d.
Proof.
  intros Hm. destruct (Hm log) as (events & -> & Hev).
  unfold created_dirs. rewrite bind_app, elem_of_app.
  intros [?|Hd]; [by left|]. right.
  apply list_elem_of_bind in Hd as (ev & Hd & Hin).
  rewrite Forall_forall in Hev. specialize (Hev ev Hin).
  unfold creates_under in Hev. rewrite Forall_forall in Hev. by apply Hev.
Qed.

Lemma born_digital_emits {B} split cache_dir :
  emits_only (creates_under (resolve_cache_dir E cache_dir))
    (get_born_digital_recognizer_dataset (B:=B) E split cache_dir).
Proof.
  set (root := resolve_cache_dir E cache_dir).
  assert (root `prefix_of` OsPath.join root (py "borndigital")) as Hmain
    by (by apply join_prefix).
  assert (∀ sub, PyStr.startswith [OsPath.sep] sub = false →
            root `prefix_of` OsPath.join (OsPath.join root (py "borndigital")) sub) as Hsub.
  { intros sub Hs. etrans; [exact Hmain|]. by apply join_prefix. }
  unfold get_born_digital_recognizer_dataset. fold root.
  apply emits_bind.
  - case_bool_decide; [|apply emits_ret].
    apply emits_bind; [apply emits_download; by repeat constructor|]. intros zip.
    apply emits_bind; [apply emits_extractall; repeat constructor; by apply Hsub|].
    intros _. apply emits_bind; [apply emits_read_labels; by constructor|].
    intros more. apply emits_ret.
  - intros data. apply emits_bind; [|intros; apply emits_ret].
    case_bool_decide; [|apply emits_ret].
    apply emits_bind; [apply emits_download; by repeat constructor|]. intros zip.
    apply emits_bind; [apply emits_extractall; repeat constructor; by apply Hsub|].
    intros _. apply emits_bind;
      [apply emits_download; repeat constructor; by apply Hsub|].
    intros gt. apply emits_bind; [apply emits_read_labels; by constructor|].
    intros more. apply emits_ret.
Qed.

Lemma cocotext_emits order split cache_dir limit leg eng raw :
  emits_only (creates_under (resolve_cache_dir E cache_dir))
    (get_cocotext_recognizer_dataset E order split cache_dir limit leg eng raw).
Proof.
  set (root := resolve_cache_dir E cache_dir).
  assert (root `prefix_of` OsPath.join root (py "coco-text")) as Hmain
    by (by apply join_prefix).
  assert (root `prefix_of` OsPath.join (OsPath.join root (py "coco-text")) (py "images"))
    as Himg.
  { etrans; [exact Hmain|]. by apply join_prefix. }
  unfold get_cocotext_recognizer_dataset. fold root.
  destruct (negb _); [apply emits_raise|].
  apply emits_bind; [apply emits_download; by repeat constructor|]. intros zip.
  apply emits_bind; [apply emits_zip_read; by constructor|]. intros labels.
  destruct (if truthy limit then _ else _) as [ids labels'].
  apply emits_bind; [apply emits_lift|]. intros fns.
  apply emits_bind; [apply emits_download_images; intros; by repeat constructor|].
  intros _. apply emits_bind; [apply emits_lift|]. intros ds. apply emits_ret.
Qed.

End CacheDirectories.

(** X7. Whatever their arguments and whatever the outcome, the two dataset
    functions create directories only at paths that start with the cache
    directory (the argument, or the default when it is [None]). *)
Theorem datasets_create_dirs_under_cache {num : Type} (E : Fetch.env num)
    (cache_dir : option str) (log : list Fetch.io_event) (d : str) :
  (∀ (B : Type) split,
      d ∈ Fetch.created_dirs
            (Fetch.get_born_digital_recognizer_dataset (B:=B) E split cache_dir log).2 →
      d ∈ Fetch.created_dirs log ∨ Fetch.resolve_cache_dir E cache_dir `prefix_of` d)
  ∧ (∀ order split limit legible_only english_only return_raw_labels,
      d ∈ Fetch.created_dirs
            (Fetch.get_cocotext_recognizer_dataset E order split cache_dir limit
               legible_only english_only return_raw_labels log).2 →
      d ∈ Fetch.created_dirs log ∨ Fetch.resolve_cache_dir E cache_dir `prefix_of` d).
Proof.
  split.
  - intros B split. apply emits_created_dirs, born_digital_emits.
  - intros order split limit leg eng raw. apply emits_created_dirs, cocotext_emits.
Qed.

(** ** The COCO-Text function: what a run that returns went through *)
Section CocoSuccess.
Import Fetch Following CocoPaths.
Context {num : Type} (E : env num).
Implicit Types labels : coco_labels num.

Lemma cocotext_success order split cache_dir limit leg eng raw log ds r log' :
  get_cocotext_recognizer_dataset E order split cache_dir limit leg eng raw log
  = (inr (ds, r), log') →
  ∃ zip labels0 fns,
    split ∈ cocotext_splits
    ∧ fetched E annotations_url (main_dir E cache_dir) = Some zip
    ∧ cocotext_json E zip = Some labels0
    ∧ filenames_of (limited limit split labels0).2 (limited limit split labels0).1 = inr fns
    ∧ first_failure E (images_dir_of E cache_dir) fns order = None
    ∧ ds = dataset_following (limited limit split labels0).2 eng leg
             (images_dir_of E cache_dir) (limited limit split labels0).1
    ∧ append_images (limited limit split labels0).2 eng leg (images_dir_of E cache_dir)
        (limited limit split labels0).1 fns (limited limit split labels0).1 [] = inr ds
    ∧ r = (if raw then Some ((limited limit split labels0).2, images_dir_of E cache_dir)
           else None)
    ∧ log' = log ++ [EvDownload annotations_url (main_dir E cache_dir)
                       (Some annotations_sha256);
                     EvZipRead zip (py "cocotext.v2.json")]
                 ++ image_events (images_dir_of E cache_dir) fns order.
Proof.
  unfold get_cocotext_recognizer_dataset. case_bool_decide as Hs; [|done]. cbn [negb].
  fold (main_dir E cache_dir). fold (images_dir_of E cache_dir).
  fold annotations_url. fold annotations_sha256.
  intros (zip & log1 & Hz & H)%bind_inr.
  apply download_and_verify_inr in Hz as [Hz ->].
  apply bind_inr in H as (labels0 & log2 & Hl & H).
  assert (log2 = (log ++ [EvDownload annotations_url (main_dir E cache_dir)
                            (Some annotations_sha256)])
                   ++ [EvZipRead zip (py "cocotext.v2.json")]) as ->.
  { unfold zip_read_json, bind, emit, lift in Hl. by injection Hl as _ <-. }
  apply zip_read_json_inr in Hl.
  exists zip, labels0. fold (limited limit split labels0) in H.
  destruct (limited limit split labels0) as [ids labels] eqn:Hlim. simpl.
  apply bind_inr in H as (fns & log3 & Hf & H). apply lift_inr in Hf as [Hf ->].
  apply bind_inr in H as ([] & log4 & Hd & H).
  apply bind_inr in H as (ds' & log5 & Ha & H). apply lift_inr in Ha as [Ha ->].
  unfold ret in H. injection H as <- <- <-.
  exists fns. unfold download_images in Hd. fold (image_events (images_dir_of E cache_dir) fns order) in Hd.
  destruct (first_failure _ _ _ _) eqn:Hff; [done|]. injection Hd as <-.
  repeat (split; [done|]).
  split; [by eapply (append_images_following _ _ _ _ _ _ _ [])|].
  split; [done|]. split; [done|]. by rewrite <-!app_assoc.
Qed.

End CocoSuccess.

(** ** Which images a split selects *)
Section SplitSelection.
Import Fetch PyStr.
Context {num : Type}.
Implicit Types labels : coco_labels num.

Lemma startswith_spec p s : startswith p s = true ↔ ∃ q, s = p ++ q.
Proof.
  revert s. induction p as [|a p IH]; intros s; simpl.
  - split; [by exists s|done].
  - destruct s as [|b s].
    + split; [done|]. by intros [q ?].
    + rewrite andb_true_iff, bool_decide_eq_true, IH. split.
      * intros [-> [q ->]]. by exists q.
      * intros [q [= -> ->]]. split; [done|]. by exists q.
Qed.

(** [a in b] on strings: [a] occurs somewhere inside [b]. *)
Lemma str_in_spec a b : str_in a b = true ↔ ∃ p q, b = p ++ a ++ q.
Proof.
  split.
  - induction b as [|c b IH]; simpl; rewrite orb_true_iff.
    + intros [Hs|?]; [|done]. apply startswith_spec in Hs as [q ->]. by exists [], q.
    + intros [Hs|Hb].
      * apply startswith_spec in Hs as [q ->]. by exists [], q.
      * destruct (IH Hb) as (p & q & ->). by exists (c :: p), q.
  - intros (p & q & ->). induction p as [|c p IH]; simpl.
    + destruct (a ++ q) eqn:Haq; simpl; rewrite <-?Haq;
        (apply orb_true_iff; left; apply startswith_spec; by exists q).
    + apply orb_true_iff. by right.
Qed.

Lemma str_in_trans a b c : str_in a b = true → str_in b c = true → str_in a c = true.
Proof.
  rewrite !str_in_spec. intros (p & q & ->) (p' & q' & ->).
  exists (p' ++ p), (q ++ q'). by rewrite <-!app_assoc.
Qed.

Lemma elem_of_select_ids labels split cocoid :
  cocoid ∈ select_ids labels split ↔
  ∃ info, (cocoid, info) ∈ imgs labels ∧ str_in (img_set info) split = true.
Proof.
  unfold select_ids. rewrite list_elem_of_fmap. split.
  - intros ([k info] & -> & [Hs Hin]%list_elem_of_filter). exists info.
    split; [done|]. by apply Is_true_true.
  - intros (info & Hin & Hs). exists (cocoid, info). split; [done|].
    apply list_elem_of_filter. split; [by apply Is_true_true|done].
Qed.

Lemma filter_sublist_impl {A} (P Q : A → Prop) `{!∀ x, Decision (P x)}
    `{!∀ x, Decision (Q x)} (l : list A) :
  (∀ x, P x → Q x) → filter P l `sublist_of` filter Q l.
Proof.
  intros HPQ. induction l as [|x l IH]; [done|].
  rewrite !filter_cons. destruct (decide (P x)) as [HP|HP].
  - rewrite decide_True by auto. by apply sublist_skip.
  - destruct (decide (Q x)); [by apply sublist_cons|done].
Qed.

End SplitSelection.

(** X8. An image is selected for a split exactly when the value of its
    ['set'] field occurs inside the name of the split, as a substring. So the
    split [trainval] selects, in the order of the index, every image that
    [train] or [val] selects; and an image whose ['set'] is the empty string
    is selected for every split. *)
Theorem cocotext_split_selects_by_substring {num : Type}
    (labels : Fetch.coco_labels num) (split : str) :
  (∀ cocoid,
      cocoid ∈ Fetch.select_ids labels split ↔
      ∃ info before after,
        (cocoid, info) ∈ Fetch.imgs labels
        ∧ split = before ++ Fetch.img_set info ++ after)
  ∧ Fetch.select_ids labels (py "train") `sublist_of` Fetch.select_ids labels (py "trainval")
  ∧ Fetch.select_ids labels (py "val") `sublist_of` Fetch.select_ids labels (py "trainval")
  ∧ (∀ cocoid info,
      (cocoid, info) ∈ Fetch.imgs labels → Fetch.img_set info = [] →
      cocoid ∈ Fetch.select_ids labels split).
Proof.
  split; [|split; [|split]].
  - intros cocoid. rewrite elem_of_select_ids. split.
    + intros (info & Hin & (p & q & ->)%str_in_spec). by exists info, p, q.
    + intros (info & p & q & Hin & ->). exists info. split; [done|].
      apply str_in_spec. by exists p, q.
  - unfold Fetch.select_ids. apply fmap_sublist, filter_sublist_impl.
    intros kv Hs%Is_true_true. apply Is_true_true.
    eapply str_in_trans; [exact Hs|]. vm_compute. reflexivity.
  - unfold Fetch.select_ids. apply fmap_sublist, filter_sublist_impl.
    intros kv Hs%Is_true_true. apply Is_true_true.
    eapply str_in_trans; [exact Hs|]. vm_compute. reflexivity.
  - intros cocoid info Hin Hset. apply elem_of_select_ids. exists info.
    split; [done|]. rewrite Hset. apply str_in_spec. by exists [], split.
Qed.

(** ** The limit and the index *)
Section LimitAndIndex.
Import Fetch Following CocoPaths.
Context {num : Type} (E : env num).
Implicit Types labels : coco_labels num.

Lemma dict_restrict_all {V} ks (d : list (str * V)) :
  (∀ kv, kv ∈ d → kv.1 ∈ ks) → dict_restrict ks d = d.
Proof.
  unfold dict_restrict. induction d as [|kv d IH]; intros Hall; [done|].
  rewrite filter_cons, decide_True by (apply Hall, list_elem_of_here).
  f_equal. apply IH. intros kv' Hin. apply Hall. by apply elem_of_cons; right.
Qed.

Lemma dict_get_restrict_elem {V} ks k (d : list (str * V)) :
  k ∈ ks → dict_get k (dict_restrict ks d) = dict_get k d.
Proof.
  intros Hk. unfold dict_restrict. induction d as [|[k' v] d IH]; [done|].
  rewrite filter_cons. simpl. destruct (decide (k' ∈ ks)) as [Hin|Hnin]; simpl.
  - by rewrite IH.
  - rewrite decide_False by (by intros ->). done.
Qed.

Lemma elem_of_dict_restrict {V} ks (d : list (str * V)) k :
  k ∈ (dict_restrict ks d).*1 → k ∈ ks.
Proof.
  unfold dict_restrict. intros (kv & -> & [Hk _]%list_elem_of_filter)%list_elem_of_fmap.
  done.
Qed.

(** The filter of [labels['anns']] in the [if limit:] block keeps every
    annotation: the set it tests against holds every key of [labels['anns']]. *)
Lemma limited_anns limit split labels :
  anns (limited limit split labels).2 = anns labels.
Proof.
  unfold limited. destruct (truthy limit); [|done]. simpl.
  apply dict_restrict_all. intros kv Hin. rewrite !elem_of_app.
  right; right; left. apply list_elem_of_fmap. by exists kv.
Qed.

Lemma slice_to_take {A} (l : list A) n : ∃ k, slice_to l n = take k l.
Proof. unfold slice_to. case_decide; eauto. Qed.

Lemma limited_ids_take limit split labels :
  ∃ k, (limited limit split labels).1 = take k (select_ids labels split).
Proof.
  unfold limited. destruct (truthy limit); simpl.
  - apply slice_to_take.
  - exists (length (select_ids labels split)). by rewrite firstn_all.
Qed.

Lemma limited_dict_get limit split labels cocoid :
  cocoid ∈ (limited limit split labels).1 →
  dict_get cocoid (imgs (limited limit split labels).2) = dict_get cocoid (imgs labels)
  ∧ dict_get cocoid (imgToAnns (limited limit split labels).2)
    = dict_get cocoid (imgToAnns labels).
Proof.
  unfold limited. destruct (truthy limit); [|done]. simpl. intros Hin.
  by rewrite !dict_get_restrict_elem.
Qed.

Lemma bind_ext_elem {A C} (f g : A → list C) (l : list A) :
  (∀ x, x ∈ l → f x = g x) → l ≫= f = l ≫= g.
Proof.
  induction l as [|x l IH]; intros Hfg; [done|]. simpl.
  rewrite (Hfg x) by apply list_elem_of_here. f_equal. apply IH.
  intros y Hy. apply Hfg. by apply elem_of_cons; right.
Qed.

(** Resolving the selected images against the index as cut by the limit is
    resolving them against the index as read. *)
Lemma dataset_following_limited limit split labels eng leg images_dir :
  dataset_following (limited limit split labels).2 eng leg images_dir
    (limited limit split labels).1
  = dataset_following labels eng leg images_dir (limited limit split labels).1.
Proof.
  unfold dataset_following. apply bind_ext_elem. intros cocoid Hin.
  unfold entries_of_image.
  destruct (limited_dict_get limit split labels cocoid Hin) as [-> ->].
  destruct (dict_get cocoid (imgs labels)); [|done].
  destruct (dict_get cocoid (imgToAnns labels)); [|done].
  apply bind_ext_elem. intros a _. unfold entries_of_ann. by rewrite limited_anns.
Qed.

End LimitAndIndex.

(** X9. The raw labels returned with [return_raw_labels] are the index
    after the [if limit:] block: its images and image-to-annotation lists are
    those of the selected images only, but its annotations are all the
    annotations of the index as read, none removed. *)
Theorem cocotext_limit_keeps_annotations {num : Type} (E : Fetch.env num)
    order split cache_dir (limit : Z) legible_only english_only log ds r log' :
  limit ≠ 0%Z →
  Fetch.get_cocotext_recognizer_dataset E order split cache_dir (Some limit)
    legible_only english_only true log = (inr (ds, r), log') →
  ∃ zip labels0 labels,
    Fetch.cocotext_json E zip = Some labels0
    ∧ r = Some (labels, Following.images_dir_of E cache_dir)
    ∧ Fetch.anns labels = Fetch.anns labels0
    ∧ (∀ k, k ∈ (Fetch.imgs labels).*1 ∨ k ∈ (Fetch.imgToAnns labels).*1 →
            k ∈ Fetch.slice_to (Fetch.select_ids labels0 split) limit).
Proof.
  intros Hlimit (zip & labels0 & fns & _ & _ & Hj & _ & _ & _ & _ & -> & _)%cocotext_success.
  exists zip, labels0, (Following.limited (Some limit) split labels0).2.
  split; [done|]. split; [done|]. split; [apply limited_anns|].
  unfold Following.limited, Fetch.truthy. rewrite bool_decide_eq_false_2 by done.
  simpl. intros k [Hk|Hk]; by apply elem_of_dict_restrict in Hk.
Qed.

Lemma cocotext_limit_keeps_annotations_witness :
  (1 ≠ 0)%Z
  ∧ ∃ ds labels dir log',
      Fetch.get_cocotext_recognizer_dataset Demo.world [0] (py "train") None (Some 1%Z)
        false false true [] = (inr (ds, Some (labels, dir)), log')
      ∧ length (Fetch.anns labels) = 4
      ∧ (Fetch.imgs labels).*1 = [py "2"].
Proof.
  split; [done|].
  destruct (Fetch.get_cocotext_recognizer_dataset Demo.world [0] (py "train") None
              (Some 1%Z) false false true []) as [[e|[ds r]] log'] eqn:Hrun;
    [vm_compute in Hrun; discriminate Hrun|].
  destruct (cocotext_limit_keeps_annotations Demo.world [0] (py "train") None 1 false false
              [] ds r log' ltac:(done) Hrun) as (zip & labels0 & labels & Hj & -> & Ha & _).
  injection Hj as <-.
  exists ds, labels, (Following.images_dir_of Demo.world None), log'.
  split; [reflexivity|]. split; [by rewrite Ha|].
  vm_compute in Hrun. by injection Hrun as _ <- _.
Defined.

(** X10. A limit cuts the dataset at an image boundary: the dataset
    returned with a limit (positive, negative or larger than the number of
    selected images) is a prefix of the dataset returned without one. *)
Theorem cocotext_limited_dataset_is_prefix {num : Type} (E : Fetch.env num)
    order order' split cache_dir limit legible_only english_only raw raw'
    log log0 ds r log' ds0 r0 log0' :
  Fetch.get_cocotext_recognizer_dataset E order split cache_dir limit
    legible_only english_only raw log = (inr (ds, r), log') →
  Fetch.get_cocotext_recognizer_dataset E order' split cache_dir None
    legible_only english_only raw' log0 = (inr (ds0, r0), log0') →
  ds `prefix_of` ds0.
Proof.
  intros (zip & labels0 & fns & _ & Hz & Hj & _ & _ & -> & _)%cocotext_success.
  intros (zip' & labels0' & fns' & _ & Hz' & Hj' & _ & _ & -> & _)%cocotext_success.
  rewrite Hz in Hz'. injection Hz' as <-. rewrite Hj in Hj'. injection Hj' as <-.
  rewrite dataset_following_limited.
  destruct (limited_ids_take limit split labels0) as [k ->].
  change (Following.limited None split labels0) with (Fetch.select_ids labels0 split, labels0).
  simpl. unfold Following.dataset_following.
  rewrite <-(take_drop k (Fetch.select_ids labels0 split)) at 2.
  rewrite bind_app. by apply prefix_app_r.
Qed.

Lemma cocotext_limited_dataset_is_prefix_witness :
  ∃ ds ds0 log' log0',
    Fetch.get_cocotext_recognizer_dataset Demo.world [0] (py "train") None (Some 1%Z)
      false false false [] = (inr (ds, None), log')
    ∧ Fetch.get_cocotext_recognizer_dataset Demo.world [1; 0] (py "train") None None
        false false false [] = (inr (ds0, None), log0')
    ∧ length ds = 2 ∧ length ds0 = 3 ∧ ds `prefix_of` ds0.
Proof.
  destruct (Fetch.get_cocotext_recognizer_dataset Demo.world [0] (py "train") None
              (Some 1%Z) false false false []) as [[e|[ds r]] log'] eqn:Hrun;
    [vm_compute in Hrun; discriminate Hrun|].
  destruct (Fetch.get_cocotext_recognizer_dataset Demo.world [1; 0] (py "train") None
              None false false false []) as [[e|[ds0 r0]] log0'] eqn:Hrun0;
    [vm_compute in Hrun0; discriminate Hrun0|].
  pose proof (cocotext_limited_dataset_is_prefix Demo.world _ _ _ _ _ _ _ _ _ _ _ _ _ _
                _ _ _ Hrun Hrun0) as Hprefix.
  vm_compute in Hrun. injection Hrun as <- <- <-.
  vm_compute in Hrun0. injection Hrun0 as <- <- <-.
  eexists _, _, _, _. split; [reflexivity|]. split; [reflexivity|].
  split; [reflexivity|]. split; [reflexivity|]. exact Hprefix.
Defined.

(** ** Entries and annotations *)
Section EntriesAndAnnotations.
Import Fetch Following CocoPaths.
Context {num : Type} (E : env num).
Implicit Types labels : coco_labels num.


Lemma sublist_bind {A C} (f g : A → list C) (l : list A) :
  (∀ x, f x `sublist_of` g x) → l ≫= f `sublist_of` l ≫= g.
Proof.
  intros Hfg. induction l as [|x l IH]; [done|]. simpl. by apply sublist_app.
Qed.

Lemma entries_of_ann_sublist labels eng leg filepath annIdx :
  entries_of_ann labels eng leg filepath annIdx
    `sublist_of` entries_of_ann labels false false filepath annIdx.
Proof.
  unfold entries_of_ann. destruct (dict_get _ _) as [ann|]; [|done].
  unfold kept at 2. simpl. destruct (kept eng leg ann); [done|].
  apply sublist_nil_l.
Qed.

Lemma dataset_following_sublist labels eng leg images_dir ids :
  dataset_following labels eng leg images_dir ids
    `sublist_of` dataset_following labels false false images_dir ids.
Proof.
  unfold dataset_following. apply sublist_bind. intros cocoid.
  unfold entries_of_image. destruct (dict_get cocoid (imgs labels)); [|done].
  destruct (dict_get cocoid (imgToAnns labels)); [|done].
  apply sublist_bind. intros a. apply entries_of_ann_sublist.
Qed.



(** What the two loops looked up when they ended without an exception. *)
Lemma append_anns_keys labels eng leg filepath annIdxs ds ds' :
  append_anns labels eng leg filepath annIdxs ds = inr ds' →
  ∀ a, a ∈ annIdxs → is_Some (dict_get (str_of_int a) (anns labels)).
Proof.
  revert ds. induction annIdxs as [|a0 rest IH]; intros ds; simpl.
  - intros _ a Ha. by apply elem_of_nil in Ha.
  - destruct (dict_get (str_of_int a0) (anns labels)) as [ann|] eqn:Hann; [|done].
    intros Hrun a [->|Ha]%elem_of_cons; [by rewrite Hann|].
    repeat case_match; try done; by eapply IH.
Qed.

Lemma append_images_keys labels eng leg images_dir ids fns todo ds ds' :
  append_images labels eng leg images_dir ids fns todo ds = inr ds' →
  ∀ cocoid, cocoid ∈ todo →
    ∃ annIdxs, dict_get cocoid (imgToAnns labels) = Some annIdxs
               ∧ ∀ a, a ∈ annIdxs → is_Some (dict_get (str_of_int a) (anns labels)).
Proof.
  revert ds. induction todo as [|c0 rest IH]; intros ds; simpl.
  - intros _ c Hc. by apply elem_of_nil in Hc.
  - destruct (list_index c0 ids) as [i|]; [|done].
    destruct (fns !! i) as [fn|]; [|done].
    destruct (dict_get c0 (imgToAnns labels)) as [annIdxs|] eqn:Hidxs; [|done].
    destruct (append_anns _ _ _ _ _ _) as [e|ds1] eqn:Ha; [done|].
    intros Hrun c [->|Hc]%elem_of_cons.
    + exists annIdxs. split; [done|]. by eapply append_anns_keys.
    + by eapply IH.
Qed.

End EntriesAndAnnotations.

(** X11. The two filters only remove entries: the dataset returned with
    [english_only] or [legible_only] is the dataset returned without them
    with some entries left out, the others in the same order. *)
Theorem cocotext_filters_only_remove {num : Type} (E : Fetch.env num)
    order order' split cache_dir limit legible_only english_only raw raw'
    log log0 ds r log' ds0 r0 log0' :
  Fetch.get_cocotext_recognizer_dataset E order split cache_dir limit
    legible_only english_only raw log = (inr (ds, r), log') →
  Fetch.get_cocotext_recognizer_dataset E order' split cache_dir limit
    false false raw' log0 = (inr (ds0, r0), log0') →
  ds `sublist_of` ds0.
Proof.
  intros (zip & labels0 & fns & _ & Hz & Hj & _ & _ & -> & _)%cocotext_success.
  intros (zip' & labels0' & fns' & _ & Hz' & Hj' & _ & _ & -> & _)%cocotext_success.
  rewrite Hz in Hz'. injection Hz' as <-. rewrite Hj in Hj'. injection Hj' as <-.
  apply dataset_following_sublist.
Qed.

Lemma cocotext_filters_only_remove_witness :
  ∃ ds ds0 log' log0',
    Fetch.get_cocotext_recognizer_dataset Demo.world [0; 1] (py "train") None None
      true true false [] = (inr (ds, None), log')
    ∧ Fetch.get_cocotext_recognizer_dataset Demo.world [0; 1] (py "train") None None
        false false false [] = (inr (ds0, None), log0')
    ∧ length ds = 1 ∧ length ds0 = 3 ∧ ds `sublist_of` ds0.
Proof.
  destruct (Fetch.get_cocotext_recognizer_dataset Demo.world [0; 1] (py "train") None
              None true true false []) as [[e|[ds r]] log'] eqn:Hrun;
    [vm_compute in Hrun; discriminate Hrun|].
  destruct (Fetch.get_cocotext_recognizer_dataset Demo.world [0; 1] (py "train") None
              None false false false []) as [[e|[ds0 r0]] log0'] eqn:Hrun0;
    [vm_compute in Hrun0; discriminate Hrun0|].
  pose proof (cocotext_filters_only_remove Demo.world _ _ _ _ _ _ _ _ _ _ _ _ _ _
                _ _ _ Hrun Hrun0) as Hsub.
  vm_compute in Hrun. injection Hrun as <- <- <-.
  vm_compute in Hrun0. injection Hrun0 as <- <- <-.
  eexists _, _, _, _. split; [reflexivity|]. split; [reflexivity|].
  split; [reflexivity|]. split; [reflexivity|]. exact Hsub.
Defined.



(** X13. A call that returns has found, for every selected image, its list
    of annotation ids in [imgToAnns] and, for every id of that list, kept by
    the filters or not, a record in [anns]: a selected image without a list,
    or an id without a record, makes the call fail. *)
Theorem cocotext_success_needs_keys {num : Type} (E : Fetch.env num)
    order split cache_dir limit legible_only english_only raw log ds r log' cocoid :
  Fetch.get_cocotext_recognizer_dataset E order split cache_dir limit
    legible_only english_only raw log = (inr (ds, r), log') →
  ∃ zip labels0,
    Fetch.cocotext_json E zip = Some labels0
    ∧ (cocoid ∈ (Following.limited limit split labels0).1 →
       ∃ annIdxs,
         Fetch.dict_get cocoid (Fetch.imgToAnns labels0) = Some annIdxs
         ∧ ∀ a, a ∈ annIdxs →
                is_Some (Fetch.dict_get (Fetch.str_of_int a) (Fetch.anns labels0))).
Proof.
  intros (zip & labels0 & fns & _ & _ & Hj & _ & _ & _ & Ha & _)%cocotext_success.
  exists zip, labels0. split; [done|]. intros Hid.
  destruct (append_images_keys _ _ _ _ _ _ _ _ _ Ha cocoid Hid) as (annIdxs & Hidxs & Hanns).
  exists annIdxs. rewrite <-(limited_anns limit split labels0).
  split; [|done].
  by rewrite <-(proj2 (limited_dict_get limit split labels0 cocoid Hid)).
Qed.

Lemma cocotext_success_needs_keys_witness :
  ∃ ds log' annIdxs,
    Fetch.get_cocotext_recognizer_dataset Demo.world [0; 1] (py "train") None None
      true true false [] = (inr (ds, None), log')
    ∧ Fetch.dict_get (py "1") (Fetch.imgToAnns Demo.labels) = Some annIdxs.
Proof.
  destruct (Fetch.get_cocotext_recognizer_dataset Demo.world [0; 1] (py "train") None
              None true true false []) as [[err|[ds r]] log'] eqn:Hrun;
    [vm_compute in Hrun; discriminate Hrun|].
  pose proof Hrun as Hc. vm_compute in Hc. injection Hc as _ Hr _. subst r.
  destruct (cocotext_success_needs_keys Demo.world _ _ _ _ _ _ _ _ _ _ _ (py "1") Hrun)
    as (zip & labels0 & Hj & Hkeys).
  injection Hj as <-.
  destruct Hkeys as (annIdxs & Hidxs & _).
  { vm_compute. apply list_elem_of_In. vm_compute. tauto. }
  by exists ds, log', annIdxs.
Defined.

(** ** The downloads of the COCO-Text function *)
Section CocoDownloads.
Import Fetch Following CocoPaths.
Context {num : Type} (E : env num).
Implicit Types labels : coco_labels num.

Lemma dict_get_is_Some {V} k (v : V) d : (k, v) ∈ d → is_Some (dict_get k d).
Proof.
  induction d as [|[k' v'] d IH]; [by intros ?%elem_of_nil|].
  intros [Heq|Hin]%elem_of_cons; simpl.
  - injection Heq as <- <-. by rewrite decide_True.
  - case_decide; [done|by apply IH].
Qed.

(** Every selected image has a file name: the comprehension that collects
    the file names cannot raise. *)
Lemma filenames_of_selected limit split labels :
  ∃ fns, filenames_of (limited limit split labels).2 (limited limit split labels).1
         = inr fns.
Proof.
  unfold filenames_of.
  destruct (mapM _ _) as [fns|] eqn:Hm; [by exists fns|]. exfalso.
  apply mapM_None in Hm. apply Exists_exists in Hm as (cocoid & Hin & Hnone).
  destruct (limited_dict_get limit split labels cocoid Hin) as [Heq _].
  rewrite Heq in Hnone.
  destruct (limited_ids_take limit split labels) as [k Hk]. rewrite Hk in Hin.
  apply elem_of_take in Hin as (i & Hi & _).
  apply list_elem_of_lookup_2, elem_of_select_ids in Hi as (info & Hinfo & _).
  apply dict_get_is_Some in Hinfo as [info' Hinfo']. by rewrite Hinfo' in Hnone.
Qed.

Lemma filenames_of_Forall2 labels ids fns :
  filenames_of labels ids = inr fns →
  Forall2 (λ cocoid f, file_name <$> dict_get cocoid (imgs labels) = Some f) ids fns.
Proof. intros Hf%or_raise_inr. by apply mapM_Some_1. Qed.

Lemma first_failure_Some images_dir fns order e :
  first_failure E images_dir fns order = Some e →
  ∃ f, f ∈ fns ∧ e = DownloadError (image_url f)
       ∧ fetched E (image_url f) images_dir = None.
Proof.
  induction order as [|i order IH]; simpl; [done|].
  destruct (fns !! i) as [f|] eqn:Hf; [|done].
  destruct (fetched E (image_url f) images_dir) eqn:Hfetch; [done|].
  intros [= <-]. exists f. split; [by eapply list_elem_of_lookup_2|done].
Qed.

(** In submission order the image downloads are one per file name. *)
Lemma image_events_seq images_dir pre fns :
  image_events images_dir (pre ++ fns) (seq (length pre) (length fns))
  = (λ f, EvDownload (image_url f) images_dir None) <$> fns.
Proof.
  revert pre. induction fns as [|f fns IH]; intros pre; [done|].
  simpl. rewrite list_lookup_middle by done. simpl. f_equal.
  specialize (IH (pre ++ [f])). rewrite length_app, <-app_assoc in IH. simpl in IH.
  by rewrite Nat.add_1_r in IH.
Qed.

Lemma image_events_perm images_dir fns order :
  order ≡ₚ seq 0 (length fns) →
  image_events images_dir fns order
    ≡ₚ (λ f, EvDownload (image_url f) images_dir None) <$> fns.
Proof.
  intros Hperm. rewrite <-(image_events_seq images_dir [] fns). simpl.
  unfold image_events. by rewrite Hperm.
Qed.

(** The run, once the annotations are there. *)
Lemma cocotext_run order split cache_dir limit leg eng raw log zip labels0 fns :
  split ∈ cocotext_splits →
  fetched E annotations_url (main_dir E cache_dir) = Some zip →
  cocotext_json E zip = Some labels0 →
  filenames_of (limited limit split labels0).2 (limited limit split labels0).1 = inr fns →
  get_cocotext_recognizer_dataset E order split cache_dir limit leg eng raw log
  = (match first_failure E (images_dir_of E cache_dir) fns order with
     | Some e => inl e
     | None =>
         match append_images (limited limit split labels0).2 eng leg
                 (images_dir_of E cache_dir) (limited limit split labels0).1 fns
                 (limited limit split labels0).1 [] with
         | inl e => inl e
         | inr ds =>
             inr (ds, if raw then Some ((limited limit split labels0).2,
                                        images_dir_of E cache_dir)
                      else None)
         end
     end,
     log ++ [EvDownload annotations_url (main_dir E cache_dir) (Some annotations_sha256);
             EvZipRead zip (py "cocotext.v2.json")]
         ++ image_events (images_dir_of E cache_dir) fns order).
Proof.
  intros Hs Hz Hj Hf. unfold get_cocotext_recognizer_dataset.
  rewrite bool_decide_eq_true_2 by done. cbn [negb].
  fold (main_dir E cache_dir). fold (images_dir_of E cache_dir).
  fold annotations_url. fold annotations_sha256.
  unfold download_and_verify, zip_read_json, bind at 1 2 3, emit, lift at 1 2.
  rewrite Hz. simpl. rewrite Hj. simpl.
  fold (limited limit split labels0).
  destruct (limited limit split labels0) as [ids labels] eqn:Hlim. simpl in *.
  unfold bind, lift, ret, download_images. rewrite Hf.
  fold (image_events (images_dir_of E cache_dir) fns order).
  rewrite <-!app_assoc. simpl.
  destruct (first_failure _ _ _ _); [done|].
  by destruct (append_images _ _ _ _ _ _ _ _).
Qed.

End CocoDownloads.

(** X14. When the annotations are fetched and read but one selected image
    cannot be downloaded, the call returns no dataset: it raises the error of
    a download that failed. Every image download was started all the same
    (there are as many download events as selected images). *)
Theorem cocotext_fails_on_failed_image {num : Type} (E : Fetch.env num)
    order split cache_dir limit legible_only english_only raw log
    zip labels0 cocoid info :
  split ∈ Fetch.cocotext_splits →
  Fetch.fetched E CocoPaths.annotations_url (CocoPaths.main_dir E cache_dir) = Some zip →
  Fetch.cocotext_json E zip = Some labels0 →
  order ≡ₚ seq 0 (length (Following.limited limit split labels0).1) →
  cocoid ∈ (Following.limited limit split labels0).1 →
  Fetch.dict_get cocoid (Fetch.imgs labels0) = Some info →
  Fetch.fetched E (Fetch.image_url (Fetch.file_name info))
    (Following.images_dir_of E cache_dir) = None →
  ∃ f fns,
    Fetch.get_cocotext_recognizer_dataset E order split cache_dir limit
      legible_only english_only raw log
    = (inl (Fetch.DownloadError (Fetch.image_url f)),
       log ++ [Fetch.EvDownload CocoPaths.annotations_url (CocoPaths.main_dir E cache_dir)
                 (Some CocoPaths.annotations_sha256);
               Fetch.EvZipRead zip (py "cocotext.v2.json")]
           ++ CocoPaths.image_events (Following.images_dir_of E cache_dir) fns order)
    ∧ Fetch.fetched E (Fetch.image_url f) (Following.images_dir_of E cache_dir) = None
    ∧ length (CocoPaths.image_events (Following.images_dir_of E cache_dir) fns order)
      = length (Following.limited limit split labels0).1.
Proof.
  intros Hs Hz Hj Hperm Hid Hinfo Hfail.
  destruct (filenames_of_selected limit split labels0) as [fns Hf].
  pose proof (filenames_of_length _ _ _ Hf) as Hlen.
  rewrite (cocotext_run E order split cache_dir limit legible_only english_only raw log
             zip labels0 fns Hs Hz Hj Hf).
  destruct (Fetch.first_failure E _ fns order) as [e|] eqn:Hff.
  - apply first_failure_Some in Hff as (f & _ & -> & Hnone).
    exists f, fns. split; [done|]. split; [done|].
    rewrite image_events_perm by (by rewrite Hlen). by rewrite length_fmap.
  - exfalso. apply first_failure_None in Hff.
    apply list_elem_of_lookup in Hid as [i Hi].
    destruct (Forall2_lookup_l _ _ _ _ _ (filenames_of_Forall2 _ _ _ Hf) Hi)
      as (f & Hfi & Hname).
    rewrite (proj1 (limited_dict_get limit split labels0 cocoid
                      (list_elem_of_lookup_2 _ _ _ Hi))), Hinfo in Hname.
    injection Hname as <-.
    rewrite Forall_forall in Hff.
    destruct (Hff i) with (f := Fetch.file_name info) as [p Hp]; [|done|congruence].
    rewrite Hperm. apply elem_of_seq. apply lookup_lt_Some in Hi. lia.
Qed.

Lemma cocotext_fails_on_failed_image_witness :
  ∃ f log',
    Fetch.get_cocotext_recognizer_dataset broken_world [1; 0] (py "train") None None
      false false false [] = (inl (Fetch.DownloadError (Fetch.image_url f)), log')
    ∧ length log' = 4.
Proof.
  destruct (cocotext_fails_on_failed_image broken_world [1; 0] (py "train") None None
              false false false [] (py "/home/u/.keras-ocr/coco-text/file") Demo.labels
              (py "1") {| Fetch.img_set := py "train"; Fetch.file_name := py "a.jpg" |})
    as (f & fns & Hrun & _ & Hlen); try reflexivity.
  - apply list_elem_of_In. vm_compute. tauto.
  - apply Permutation_swap.
  - apply list_elem_of_In. vm_compute. tauto.
  - eexists f, _. split; [exact Hrun|].
    rewrite length_app, length_app, Hlen. reflexivity.
Defined.

(** X15. A call that returns has downloaded the annotations archive, with
    its checksum, into [<cache>/coco-text], read [cocotext.v2.json] from it,
    and then downloaded one image per selected image ID, without a checksum,
    into [<cache>/coco-text/images], in the order of completion, and has done
    nothing else: a limit of [N > 0] means at most [N] image downloads. *)
Theorem cocotext_downloads_one_per_image {num : Type} (E : Fetch.env num)
    order split cache_dir limit legible_only english_only raw log ds r log' :
  Fetch.get_cocotext_recognizer_dataset E order split cache_dir limit
    legible_only english_only raw log = (inr (ds, r), log') →
  ∃ zip labels0 fns,
    Fetch.cocotext_json E zip = Some labels0
    ∧ Forall2 (λ cocoid f,
                 Fetch.file_name <$> Fetch.dict_get cocoid (Fetch.imgs labels0) = Some f)
        (Following.limited limit split labels0).1 fns
    ∧ log' = log ++ [Fetch.EvDownload CocoPaths.annotations_url
                       (CocoPaths.main_dir E cache_dir) (Some CocoPaths.annotations_sha256);
                     Fetch.EvZipRead zip (py "cocotext.v2.json")]
                 ++ CocoPaths.image_events (Following.images_dir_of E cache_dir) fns order
    ∧ (order ≡ₚ seq 0 (length (Following.limited limit split labels0).1) →
       CocoPaths.image_events (Following.images_dir_of E cache_dir) fns order
         ≡ₚ (λ f, Fetch.EvDownload (Fetch.image_url f)
                    (Following.images_dir_of E cache_dir) None) <$> fns)
    ∧ (∀ N, limit = Some N → (0 < N)%Z → length fns ≤ Z.to_nat N).
Proof.
  intros (zip & labels0 & fns & _ & _ & Hj & Hf & _ & _ & _ & _ & ->)%cocotext_success.
  pose proof (filenames_of_length _ _ _ Hf) as Hlen.
  exists zip, labels0, fns. split; [done|]. split.
  - apply filenames_of_Forall2 in Hf.
    apply Forall2_same_length_lookup. split; [by eapply Forall2_length|].
    intros i cocoid f Hi Hfi.
    pose proof (Forall2_lookup_lr _ _ _ _ _ _ Hf Hi Hfi) as Hname. simpl in Hname.
    by rewrite (proj1 (limited_dict_get limit split labels0 cocoid
                         (list_elem_of_lookup_2 _ _ _ Hi))) in Hname.
  - split; [done|]. split.
    + intros Hperm. apply image_events_perm. by rewrite Hlen.
    + intros N -> HN. rewrite Hlen, limited_ids_positive by done.
      rewrite length_take. lia.
Qed.

(** ** The generator over whole passes, when every image can be read *)
Section GeneratorPasses.
Import Generator GeneratorTrace.
Context {B image : Type} (E : env B image).
Context (height width : Z) (alphabet : str) (augmenter : option (image → image)).
Implicit Types (σ : world B) (l : list (entry B)) (e : entry B) (g : gen) (r c : loc).

Hypothesis read_ok : ∀ path, is_Some (read E path).
Hypothesis warpBox_ok : ∀ im b h w cval, is_Some (warpBox E im b h w cval).
Hypothesis read_and_fit_ok : ∀ path w h cval, is_Some (read_and_fit E path w h cval).

Local Abbreviation process := (process E height width alphabet augmenter).
Local Abbreviation iteration := (iteration E height width alphabet augmenter).
Local Abbreviation step := (step E height width alphabet augmenter).
Local Abbreviation next := (next E height width alphabet augmenter).
Local Abbreviation emitted := (emitted E height width alphabet augmenter).

(** The iteration at position [pos] of a pass, from the entry it visits. *)
Lemma iteration_at c n pos σ l1 e :
  pos < n → heap (enter E c pos σ) !! c = Some l1 → l1 !! pos = Some e →
  ∃ sig σ',
    iteration c n pos σ = (sig, Looping c n (S pos), σ')
    ∧ heap σ' = heap (enter E c pos σ)
    ∧ (if decide (filter_text alphabet e.2 = []) then sig = Skip
       else ∃ im, sig = Yield (im, filter_text alphabet e.2)).
Proof.
  intros Hpos Hl1 He.
  rewrite (iteration_unfold E height width alphabet augmenter _ _ _ _ _ _
             (cycle_next_range n pos Hpos)).
  unfold visited. rewrite Hl1. simpl. rewrite He.
  pose proof (process_loaded E height width alphabet augmenter
                read_ok warpBox_ok read_and_fit_ok e (enter E c pos σ)) as Hp.
  pose proof (process_signal E height width alphabet augmenter e (enter E c pos σ)) as Hs.
  pose proof (process_heap E height width alphabet augmenter e (enter E c pos σ)) as Hh.
  destruct (process e (enter E c pos σ)) as [sig σ2]. simpl in *.
  destruct (decide (filter_text alphabet e.2 = [])) as [Hempty|Hne].
  - subst sig. by eexists _, _.
  - destruct Hp as [[im text] ->]. destruct Hs as [-> _].
    eexists _, _. split; [done|]. split; [done|]. by eexists.
Qed.

Lemma emitted_S k g σ :
  emitted (S k) g σ
  = ((match (step g σ).1.1 with Yield sample => [sample] | _ => [] end)
       ++ (emitted k (step g σ).1.2 (step g σ).2).1.1,
     (emitted k (step g σ).1.2 (step g σ).2).1.2,
     (emitted k (step g σ).1.2 (step g σ).2).2).
Proof.
  simpl. destruct (step g σ) as [[sig g1] σ1]. simpl.
  destruct (emitted k g1 σ1) as [[samples g2] σ2]. simpl. by destruct sig.
Qed.

Lemma usable_texts_cons e l :
  usable_texts alphabet (e :: l)
  = (if decide (filter_text alphabet e.2 = []) then []
     else [filter_text alphabet e.2]) ++ usable_texts alphabet l.
Proof.
  unfold usable_texts. rewrite fmap_cons, filter_cons.
  destruct (decide (filter_text alphabet e.2 = [])) as [Hempty|Hne].
  - by rewrite decide_False by (by intros ?).
  - by rewrite decide_True.
Qed.

(** From a position past index 0 to the end of the pass. *)
Lemma emitted_to_end c n l1 k : ∀ pos σ,
  1 ≤ pos → pos + k = n → heap σ !! c = Some l1 → length l1 = n →
  ∃ samples σ',
    emitted k (Looping c n pos) σ = (samples, Looping c n n, σ')
    ∧ samples.*2 = usable_texts alphabet (drop pos l1)
    ∧ heap σ' = heap σ.
Proof.
  induction k as [|k IH]; intros pos σ Hpos Hk Hl1 Hlen.
  - assert (pos = n) as -> by lia. exists [], σ. split; [done|].
    rewrite drop_ge by lia. done.
  - destruct (lookup_lt_is_Some_2 l1 pos) as [e He]; [lia|].
    destruct (iteration_at c n pos σ l1 e) as (sig & σ1 & Hit & Hh & Hsig);
      [lia|by rewrite enter_nonzero by lia|done|].
    rewrite enter_nonzero in Hh by lia.
    destruct (IH (S pos) σ1) as (samples & σ' & Hem & Htexts & Hh');
      [lia|lia|by rewrite Hh|done|].
    rewrite emitted_S. simpl. rewrite Hit. simpl. rewrite Hem. simpl.
    eexists _, σ'. split; [done|]. split; [|by rewrite Hh', Hh].
    rewrite (drop_S l1 e pos He), usable_texts_cons, fmap_app, Htexts.
    f_equal. case_decide; [by subst sig|]. by destruct Hsig as [im ->].
Qed.

Lemma emitted_pass c σ l n :
  heap σ !! c = Some l → length l = n →
  ∃ samples σ',
    emitted n (Looping c n 0) σ = (samples, Looping c n n, σ')
    ∧ samples.*2
      = usable_texts alphabet (PyRandom.shuffle (py_draw E) (py_drawn σ) l).1
    ∧ (l ≠ [] →
       heap σ' !! c = Some (PyRandom.shuffle (py_draw E) (py_drawn σ) l).1).
Proof.
  intros Hl Hn. set (l1 := (PyRandom.shuffle (py_draw E) (py_drawn σ) l).1).
  assert (length l1 = n) as Hlen by (by unfold l1; rewrite shuffle_length).
  destruct n as [|n].
  { apply nil_length_inv in Hn. subst l. exists [], σ. by destruct l1. }
  assert (heap (enter E c 0 σ) !! c = Some l1) as Hl1.
  { by rewrite (enter_zero E c σ l Hl), lookup_insert_eq. }
  destruct (lookup_lt_is_Some_2 l1 0) as [e He]; [lia|].
  destruct (iteration_at c (S n) 0 σ l1 e ltac:(lia) Hl1 He)
    as (sig & σ1 & Hit & Hh & Hsig).
  destruct (emitted_to_end c (S n) l1 n 1 σ1)
    as (samples & σ' & Hem & Htexts & Hh'); [lia|lia|by rewrite Hh|done|].
  rewrite emitted_S. simpl. rewrite Hit. simpl. rewrite Hem. simpl.
  eexists _, σ'. split; [done|]. split; [|intros _; by rewrite Hh', Hh].
  rewrite <-(drop_0 l1) at 1. rewrite (drop_S l1 e 0 He), usable_texts_cons.
  rewrite fmap_app, Htexts. f_equal.
  case_decide; [by subst sig|]. by destruct Hsig as [im ->].
Qed.

(** X16. Over one pass, the generator emits the non-empty filtered texts
    of all the entries, each entry once, in the order of the list as shuffled
    at the start of the pass, and ends at the end of the cycle with that list
    in place. *)
Theorem generator_pass_emits_every_usable_entry c σ l :
  heap σ !! c = Some l →
  ∃ samples σ',
    emitted (length l) (Looping c (length l) 0) σ
    = (samples, Looping c (length l) (length l), σ')
    ∧ samples.*2
      = usable_texts alphabet (PyRandom.shuffle (py_draw E) (py_drawn σ) l).1
    ∧ samples.*2 ≡ₚ usable_texts alphabet l
    ∧ (l ≠ [] →
       heap σ' !! c = Some (PyRandom.shuffle (py_draw E) (py_drawn σ) l).1).
Proof.
  intros Hl.
  destruct (emitted_pass c σ l (length l) Hl eq_refl) as (samples & σ' & Hem & Ht & Hh).
  exists samples, σ'. split; [done|]. split; [done|]. split; [|done].
  rewrite Ht. unfold usable_texts. by rewrite shuffle_perm.
Qed.

End GeneratorPasses.

(** ** A dataset with nothing to emit *)
Section GeneratorStarved.
Import Generator GeneratorTrace.
Context {B image : Type} (E : env B image).
Context (height width : Z) (alphabet : str) (augmenter : option (image → image)).
Implicit Types (σ : world B) (l : list (entry B)) (e : entry B) (g : gen) (r c : loc).

Hypothesis read_ok : ∀ path, is_Some (read E path).
Hypothesis warpBox_ok : ∀ im b h w cval, is_Some (warpBox E im b h w cval).
Hypothesis read_and_fit_ok : ∀ path w h cval, is_Some (read_and_fit E path w h cval).

Local Abbreviation iteration := (iteration E height width alphabet augmenter).
Local Abbreviation step := (step E height width alphabet augmenter).
Local Abbreviation next := (next E height width alphabet augmenter).

Lemma iteration_starved r l c n pos σ :
  generator_inv r l (Looping c n pos) σ → l ≠ [] →
  (∀ e, e ∈ l → filter_text alphabet e.2 = []) →
  ∃ pos' σ', iteration c n pos σ = (Skip, Looping c n pos', σ').
Proof.
  intros Hinv Hne Hall.
  pose proof Hinv as (_ & _ & -> & Hpos & l0 & Hl0 & Hperm).
  assert (0 < length l) as Hn by (destruct l; [done|simpl; lia]).
  destruct (cycle_next (seq 0 (length l)) pos) as [[index pos']|] eqn:Hcy; last first.
  { unfold cycle_next in Hcy. destruct (seq 0 (length l) !! pos); [done|].
    destruct (length l); [lia|done]. }
  pose proof (cycle_next_index _ _ _ _ Hpos Hcy) as (Hindex & _).
  destruct (enter_heap E c index σ l0 Hl0) as (l1 & Hperm1 & Hheap).
  destruct (lookup_lt_is_Some_2 l1 index) as [e He].
  { by rewrite Hperm1, Hperm. }
  rewrite (iteration_unfold E height width alphabet augmenter _ _ _ _ _ _ Hcy).
  unfold visited. rewrite Hheap, lookup_insert_eq. simpl. rewrite He.
  pose proof (process_loaded E height width alphabet augmenter
                read_ok warpBox_ok read_and_fit_ok e
                (World (<[c:=l1]> (heap σ)) (py_drawn (enter E c index σ))
                   (np_drawn (enter E c index σ)) (stdout (enter E c index σ)))) as Hp.
  assert (filter_text alphabet e.2 = []) as Hempty.
  { apply Hall. rewrite <-Hperm, <-Hperm1. by eapply list_elem_of_lookup_2. }
  rewrite decide_True in Hp by done.
  assert (enter E c index σ
          = World (<[c:=l1]> (heap σ)) (py_drawn (enter E c index σ))
              (np_drawn (enter E c index σ)) (stdout (enter E c index σ))) as Heq.
  { rewrite <-Hheap. by destruct (enter E c index σ). }
  rewrite Heq. destruct (Generator.process _ _ _ _ _ e _) as [sig σ2].
  simpl in Hp. subst sig. by eexists _, _.
Qed.

(** X17. When the list is not empty but no entry keeps a character of the
    alphabet, a pull never returns, although every image can be read: every
    iteration ends in [continue], whatever the fuel. *)
Theorem generator_starved_never_returns r l g σ fuel :
  generator_inv r l g σ → g ≠ Finished → l ≠ [] →
  (∀ e, e ∈ l → filter_text alphabet e.2 = []) →
  (next fuel g σ).1.1 = Diverges.
Proof.
  intros Hinv Hg Hne Hall.
  assert (∀ c n pos σ0, generator_inv r l (Looping c n pos) σ0 →
            (next fuel (Looping c n pos) σ0).1.1 = Diverges) as Hloop.
  { induction fuel as [|fuel IH]; intros c n pos σ0 Hinv0;
      destruct (iteration_starved r l c n pos σ0 Hinv0 Hne Hall) as (pos' & σ' & Hit);
      simpl; rewrite Hit; [done|].
    apply IH. eapply (iteration_inv E height width alphabet augmenter); [exact Hinv0|].
    exact Hit. }
  destruct g as [r'|c n pos|]; [|by apply Hloop|done].
  destruct Hinv as [Hr ->].
  destruct (start_inv alphabet r l σ Hr) as (c & σ1 & Hs & Hinv1).
  specialize (Hloop c (length l) 0 σ1 Hinv1).
  destruct fuel; simpl in *; by rewrite Hs.
Qed.

End GeneratorStarved.

Lemma generator_starved_never_returns_witness :
  generator_inv DemoGen.caller [(py "y.png", None, py "xyz")]
    (Generator.Created DemoGen.caller) unusable_store
  ∧ (Generator.next DemoGen.tools 32 100 DemoGen.alphabet None 50
       (Generator.Created DemoGen.caller) unusable_store).1.1 = Generator.Diverges.
Proof.
  assert (generator_inv DemoGen.caller [(py "y.png", None, py "xyz")]
            (Generator.Created DemoGen.caller) unusable_store) as Hinv.
  { split; reflexivity. }
  split; [exact Hinv|].
  apply (generator_starved_never_returns DemoGen.tools 32 100 DemoGen.alphabet None
           ltac:(by eexists) ltac:(by eexists) ltac:(by eexists)
           DemoGen.caller [(py "y.png", None, py "xyz")] _ _ 50 Hinv); [done|done|].
  intros e ->%list_elem_of_singleton. vm_compute. reflexivity.
Defined.

(** X18. When every image can be read and some entry keeps a character of
    the alphabet, a pull on a generator that has not finished returns a sample
    as soon as its fuel covers two passes over the list. *)
Theorem generator_pull_returns_sample {B image : Type} (E : Generator.env B image)
    (height width : Z) (alphabet : str) (augmenter : option (image → image))
    r (l : list (entry B)) g σ e fuel :
  (∀ path, is_Some (Generator.read E path)) →
  (∀ im b h w cval, is_Some (Generator.warpBox E im b h w cval)) →
  (∀ path w h cval, is_Some (Generator.read_and_fit E path w h cval)) →
  generator_inv r l g σ → g ≠ Generator.Finished →
  e ∈ l → Generator.filter_text alphabet e.2 ≠ [] →
  2 * length l ≤ fuel →
  ∃ sample g' σ',
    Generator.next E height width alphabet augmenter fuel g σ
    = (Generator.Item sample, g', σ')
    ∧ sample.2 ≠ []
    ∧ generator_inv r l g' σ'.
Proof.
  intros Hread Hwarp Hfit Hinv Hg Hin Hgood Hfuel.
  destruct (next_yields E height width alphabet augmenter Hread Hwarp Hfit
              r l g σ e fuel Hinv Hg Hin Hgood Hfuel) as (sample & g' & σ' & Hn).
  exists sample, g', σ'. split; [done|]. split.
  - by destruct (next_item E height width alphabet augmenter r l fuel g σ sample g' σ'
                   Hinv Hn).
  - by eapply next_inv.
Qed.

Lemma generator_pull_returns_sample_witness :
  ∃ sample g' σ',
    Generator.next DemoGen.tools 32 100 DemoGen.alphabet None 6
      (Generator.Created DemoGen.caller) DemoGen.store
    = (Generator.Item sample, g', σ')
    ∧ sample.2 ≠ [].
Proof.
  destruct (generator_pull_returns_sample DemoGen.tools 32 100 DemoGen.alphabet None
              DemoGen.caller DemoGen.dataset (Generator.Created DemoGen.caller)
              DemoGen.store (py "x.png", None, py "abcxyz") 6)
    as (sample & g' & σ' & Hn & Hne & _);
    try (by eexists); try done.
  - apply list_elem_of_here.
  - by exists sample, g', σ'.
Defined.

(** ** The notice about illegal characters *)
Section GeneratorNotice.
Import Generator GeneratorTrace.
Context {B image : Type} (E : env B image).
Context (height width : Z) (alphabet : str) (augmenter : option (image → image)).
Implicit Types (σ : world B) (l : list (entry B)) (e : entry B) (g : gen) (r c : loc).

Local Abbreviation process := (process E height width alphabet augmenter).
Local Abbreviation iteration := (iteration E height width alphabet augmenter).
Local Abbreviation step := (step E height width alphabet augmenter).
Local Abbreviation next := (next E height width alphabet augmenter).
Local Abbreviation pulls := (pulls E height width alphabet augmenter).

(** A text has an illegal character exactly when filtering changes it. *)
Lemma illegal_iff_changed (text : str) :
  existsb (λ ch, negb (PyStr.char_in ch alphabet)) text = true
  ↔ filter_text alphabet text ≠ text.
Proof.
  unfold filter_text. induction text as [|ch text IH]; simpl; [done|].
  rewrite filter_cons. case_decide as Hch.
  - rewrite Hch. simpl. rewrite IH. split; [congruence|].
    intros Hne Heq. apply Hne. by rewrite Heq.
  - apply not_true_is_false in Hch. rewrite Hch. simpl. split; [|done]. intros _ Heq.
    pose proof (length_filter (λ a : ascii, PyStr.char_in a alphabet = true) text) as Hlen.
    rewrite Heq in Hlen. simpl in Hlen. lia.
Qed.

Lemma n_with_illegal_characters_changed l :
  n_with_illegal_characters alphabet l
  = length (filter (λ e : entry B, filter_text alphabet e.2 ≠ e.2) l).
Proof.
  unfold n_with_illegal_characters. f_equal. apply list_filter_iff.
  intros e. apply illegal_iff_changed.
Qed.

Lemma enter_stdout c index σ : stdout (enter E c index σ) = stdout σ.
Proof.
  unfold enter. case_decide; [|done]. destruct (heap σ !! c); [|done].
  by destruct (PyRandom.shuffle _ _ _).
Qed.

Lemma process_notices e σ : notices (process e σ).2 = notices σ.
Proof.
  unfold Generator.process, notices. destruct e as [[filepath box] text].
  unfold draw_cval. destruct (PyRandom.randint _ _ _ _ _) as [vs k].
  destruct box as [b|]; simpl; repeat case_match; simplify_eq/=;
    rewrite ?filter_app; simpl; by rewrite ?app_nil_r.
Qed.

Lemma iteration_notices c n pos σ sig g' σ' :
  iteration c n pos σ = (sig, g', σ') →
  notices σ' = notices σ ∧ ∀ r', g' ≠ Created r'.
Proof.
  unfold Generator.iteration.
  destruct (cycle_next _ _) as [[index pos']|]; [|by intros [= <- <- <-]].
  assert (notices (enter E c index σ) = notices σ) as Hent.
  { unfold notices. by rewrite enter_stdout. }
  destruct (heap (enter E c index σ) !! c ≫= _) as [e|]; [|by intros [= <- <- <-]].
  pose proof (process_notices e (enter E c index σ)) as Hp.
  destruct (process e (enter E c index σ)) as [sig2 σ2]. simpl in Hp.
  destruct sig2; intros [= <- <- <-]; by rewrite Hp.
Qed.

Lemma step_notices g σ sig g' σ' :
  (∀ r', g ≠ Created r') → step g σ = (sig, g', σ') →
  notices σ' = notices σ ∧ ∀ r', g' ≠ Created r'.
Proof.
  destruct g as [r'|c n pos|]; simpl; intros Hg.
  - by destruct (Hg r').
  - apply iteration_notices.
  - by intros [= <- <- <-].
Qed.

Lemma next_notices fuel g σ p g' σ' :
  (∀ r', g ≠ Created r') → next fuel g σ = (p, g', σ') →
  notices σ' = notices σ ∧ ∀ r', g' ≠ Created r'.
Proof.
  revert g σ. induction fuel as [|fuel IH]; intros g σ Hg; simpl;
    destruct (step g σ) as [[sig g1] σ1] eqn:Hs;
    destruct (step_notices _ _ _ _ _ Hg Hs) as [Hn Hg1];
    destruct sig; try (by intros [= <- <- <-]).
  intros Hnext. destruct (IH g1 σ1 Hg1 Hnext) as [Hn' Hg']. by rewrite Hn', Hn.
Qed.

Lemma pulls_notices fuels g σ :
  (∀ r', g ≠ Created r') → notices (pulls fuels g σ).2 = notices σ.
Proof.
  revert g σ. induction fuels as [|fuel fuels IH]; intros g σ Hg; simpl; [done|].
  destruct (next fuel g σ) as [[p g1] σ1] eqn:Hn.
  destruct (next_notices _ _ _ _ _ _ Hg Hn) as [Hn1 Hg1].
  specialize (IH g1 σ1 Hg1).
  destruct (pulls fuels g1 σ1) as [[ps g2] σ2]. simpl in *. by rewrite IH.
Qed.

(** X19. The notice about illegal characters is printed by the first pull
    (making the generator prints nothing), and never again: it appears exactly
    when filtering changes the text of some entry, and then it gives the number
    of such entries and the number of entries. *)
Theorem generator_notice_once r l σ fuel fuels :
  heap σ !! r = Some l →
  notices (pulls (fuel :: fuels) (Created r) σ).2
  = notices σ
    ++ (if decide (length (filter (λ e : entry B, filter_text alphabet e.2 ≠ e.2) l) = 0)
        then []
        else [NoticeIllegal
                (length (filter (λ e : entry B, filter_text alphabet e.2 ≠ e.2) l))
                (length l)]).
Proof.
  intros Hr. rewrite <-n_with_illegal_characters_changed.
  destruct (start alphabet r σ) as [[[c n] σ1]|] eqn:Hs; last first.
  { unfold start in Hs. by rewrite Hr in Hs. }
  assert (pulls (fuel :: fuels) (Created r) σ = pulls (fuel :: fuels) (Looping c n 0) σ1)
    as ->.
  { simpl. assert (next fuel (Created r) σ = next fuel (Looping c n 0) σ1) as ->; [|done].
    destruct fuel; simpl; by rewrite Hs. }
  rewrite pulls_notices by done.
  unfold start in Hs. rewrite Hr in Hs. injection Hs as _ _ <-.
  unfold notices. simpl.
  destruct (decide (0 < n_with_illegal_characters alphabet l)) as [Hpos|Hzero].
  - rewrite decide_False by lia. by rewrite filter_app.
  - rewrite decide_True by lia. by rewrite app_nil_r.
Qed.

End GeneratorNotice.

Lemma generator_notice_once_witness :
  Generator.heap DemoGen.store !! DemoGen.caller = Some DemoGen.dataset
  ∧ GeneratorTrace.notices
      (Generator.pulls DemoGen.tools 32 100 DemoGen.alphabet None [3; 3; 3; 3]
         (Generator.Created DemoGen.caller) DemoGen.store).2
    = [Generator.NoticeIllegal 3 3].
Proof.
  assert (Generator.heap DemoGen.store !! DemoGen.caller = Some DemoGen.dataset)
    as Hl by reflexivity.
  split; [exact Hl|].
  rewrite (generator_notice_once DemoGen.tools 32 100 DemoGen.alphabet None
             DemoGen.caller DemoGen.dataset DemoGen.store 3 [3; 3; 3] Hl).
  vm_compute. reflexivity.
Defined.

Lemma generator_pass_emits_every_usable_entry_witness :
  Generator.heap DemoGen.store !! DemoGen.caller = Some DemoGen.dataset
  ∧ ∃ samples σ',
      GeneratorTrace.emitted DemoGen.tools 32 100 DemoGen.alphabet None 3
        (Generator.Looping DemoGen.caller 3 0) DemoGen.store
      = (samples, Generator.Looping DemoGen.caller 3 3, σ')
      ∧ samples.*2 ≡ₚ [py "abc"; py "cab"].
Proof.
  assert (Generator.heap DemoGen.store !! DemoGen.caller = Some DemoGen.dataset)
    as Hl by reflexivity.
  split; [exact Hl|].
  destruct (generator_pass_emits_every_usable_entry DemoGen.tools 32 100
              DemoGen.alphabet None ltac:(by eexists) ltac:(by eexists)
              ltac:(by eexists) DemoGen.caller DemoGen.store DemoGen.dataset Hl)
    as (samples & σ' & Hem & _ & Hperm & _).
  exists samples, σ'. split; [exact Hem|]. exact Hperm.
Defined.

Lemma cocotext_downloads_one_per_image_witness :
  ∃ ds log',
    Fetch.get_cocotext_recognizer_dataset Demo.world [1; 0] (py "train") None None
      false false false [] = (inr (ds, None), log')
    ∧ length log' = 4.
Proof.
  destruct (Fetch.get_cocotext_recognizer_dataset Demo.world [1; 0] (py "train") None
              None false false false []) as [[err|[ds r]] log'] eqn:Hrun;
    [vm_compute in Hrun; discriminate Hrun|].
  pose proof Hrun as Hc. vm_compute in Hc. injection Hc as _ Hr _. subst r.
  destruct (cocotext_downloads_one_per_image Demo.world _ _ _ _ _ _ _ _ _ _ _ Hrun)
    as (zip & labels0 & fns & Hj & Hnames & Hlog & Hperm & _).
  injection Hj as <-. exists ds, log'. split; [reflexivity|].
  rewrite Hlog, !length_app, Hperm, length_fmap.
  - apply Forall2_length in Hnames. rewrite <-Hnames. reflexivity.
  - apply Permutation_swap.
Defined.
